(** * SFDC deduplication agent: job orchestration, approval gate and
      duplicate marking

    A shallow embedding of [main.py] (JobManager, the runner
    [run_agent_job], the request handler [approve_decision]),
    [agent/dedup_agent.py] ([run_agent_workflow], [wait_for_approval]) and
    [agent/langsmith_wrapper.py] ([traced_duplicate_marking],
    [traced_salesforce_update]).

    Python dictionaries are finite maps, exceptions are an explicit result
    type, and the job manager, the sockets and the Salesforce sink live in
    one [World] that every operation threads through. *)

From stdpp Require Import gmap strings list fin_maps pretty.
From Stdlib Require Import ZArith Ascii.

#[local] Set Warnings "-register-all".
#[local] Open Scope string_scope.
#[local] Open Scope Z_scope.
#[local] Open Scope list_scope.

(** ** Python values *)

(** JSON-like values held by job records, results and Claude's answers. *)
Inductive Value : Type :=
  | VNone
  | VBool (b : bool)
  | VInt (n : Z)
  | VStr (s : string)
  | VList (l : list Value)
  | VDict (d : gmap string Value).

Abbreviation Dict := (gmap string Value).

(** The scalar columns of a Salesforce record: text, checkbox or null. *)
Inductive Field : Type :=
  | FNull
  | FStr (s : string)
  | FBool (b : bool).

Abbreviation Contact := (gmap string Field).

#[global] Instance Field_eq_dec : EqDecision Field.
Proof. solve_decision. Defined.

#[global] Instance Field_countable : Countable Field.
Proof.
  refine (inj_countable'
    (λ f, match f with
          | FNull => inl ()
          | FStr s => inr (inl s)
          | FBool b => inr (inr b)
          end)
    (λ x, match x with
          | inl _ => FNull
          | inr (inl s) => FStr s
          | inr (inr b) => FBool b
          end) _).
  by intros [].
Defined.

(** [bool(v)] *)
Definition truthy (v : Value) : bool :=
  match v with
  | VNone => false
  | VBool b => b
  | VInt n => negb (n =? 0)
  | VStr s => negb (String.eqb s "")
  | VList l => match l with [] => false | _ => true end
  | VDict d => negb (Nat.eqb (size d) 0)
  end.

Definition truthy_field (f : Field) : bool :=
  match f with
  | FNull => false
  | FStr s => negb (String.eqb s "")
  | FBool b => b
  end.

(** [d.get(k)] and [d.get(k, dflt)] *)
Definition get (d : Dict) (k : string) : Value := default VNone (d !! k).
Definition get_or (d : Dict) (k : string) (dflt : Value) : Value :=
  default dflt (d !! k).

Definition cget (c : Contact) (k : string) : Field := default FNull (c !! k).
Definition cget_or (c : Contact) (k : string) (dflt : Field) : Field :=
  default dflt (c !! k).

(** [str(x)] of a column, as an f-string renders it. *)
Definition str_field (f : Field) : string :=
  match f with
  | FNull => "None"
  | FStr s => s
  | FBool true => "True"
  | FBool false => "False"
  end.

Definition field_value (f : Field) : Value :=
  match f with
  | FNull => VNone
  | FStr s => VStr s
  | FBool b => VBool b
  end.

(** [v == s] for a text constant [s] *)
Definition is_str (v : Value) (s : string) : bool :=
  match v with
  | VStr s' => String.eqb s' s
  | _ => false
  end.

(** ** Python strings *)

Definition is_space (c : ascii) : bool :=
  let n := nat_of_ascii c in
  (Nat.eqb n 32 || (Nat.leb 9 n && Nat.leb n 13) || (Nat.leb 28 n && Nat.leb n 31))%bool.

Fixpoint lstrip (s : string) : string :=
  match s with
  | String c s' => if is_space c then lstrip s' else s
  | EmptyString => EmptyString
  end.

Fixpoint rstrip (s : string) : string :=
  match s with
  | String c s' =>
      match rstrip s' with
      | EmptyString => if is_space c then EmptyString else String c EmptyString
      | t => String c t
      end
  | EmptyString => EmptyString
  end.

(** [s.strip()] *)
Definition py_strip (s : string) : string := rstrip (lstrip s).

Definition lower_ascii (c : ascii) : ascii :=
  let n := nat_of_ascii c in
  if (Nat.leb 65 n && Nat.leb n 90)%bool then ascii_of_nat (n + 32) else c.

Definition upper_ascii (c : ascii) : ascii :=
  let n := nat_of_ascii c in
  if (Nat.leb 97 n && Nat.leb n 122)%bool then ascii_of_nat (n - 32) else c.

(** [s.lower()] *)
Fixpoint py_lower (s : string) : string :=
  match s with
  | String c s' => String (lower_ascii c) (py_lower s')
  | EmptyString => EmptyString
  end.

(** [s.capitalize()] *)
Definition py_capitalize (s : string) : string :=
  match s with
  | String c s' => String (upper_ascii c) (py_lower s')
  | EmptyString => EmptyString
  end.

(** [s[:n]] *)
Fixpoint str_take (n : nat) (s : string) : string :=
  match n, s with
  | S n', String c s' => String c (str_take n' s')
  | _, _ => EmptyString
  end.

(** [len(s)] *)
Definition py_len (s : string) : Z := Z.of_nat (String.length s).

(** [sep.join(parts)] *)
Definition py_join (sep : string) (parts : list string) : string :=
  String.concat sep parts.

(** ** Exceptions and results *)

Inductive Exn : Type :=
  | Exception (msg : string)
  | ValueError (msg : string)
  | KeyError (key : string)
  | IndexError (msg : string)
  | TypeError (msg : string)
  | AttributeError (msg : string)
  | RuntimeError (msg : string)
  | HTTPException (status_code : Z) (detail : string).

(** [str(e)] *)
Definition str_exn (e : Exn) : string :=
  match e with
  | Exception m | ValueError m | IndexError m | TypeError m
  | AttributeError m | RuntimeError m => m
  | KeyError k => "'" +:+ k +:+ "'"
  | HTTPException c d => pretty c +:+ ": " +:+ d
  end.

Inductive Res (A : Type) : Type :=
  | Ok (a : A)
  | Raise (e : Exn).
Arguments Ok {A} a.
Arguments Raise {A} e.

(** [d[k]] *)
Definition getitem (d : Dict) (k : string) : Res Value :=
  match d !! k with
  | Some v => Ok v
  | None => Raise (KeyError k)
  end.

(** ** The world

    [objs] is the heap of job dictionaries; [jobs] is [JobManager.jobs],
    an insertion-ordered dictionary from job id to a reference into the
    heap, so that two holders of a reference see the same record.
    [inbox] holds the requests the serving path has yet to receive, with
    their arrival instants; [closed] the sockets whose peer is gone.
    [sent], [history] and [sf_calls] are logs: frames delivered to
    sockets, every committed job snapshot, and every batch handed to
    [sf.bulk.Contact.update]. *)

Abbreviation WebSocket := nat.

Record StartJobRequest := {
  batch_size : option Z;
  owner_filter : option (list string);
  auto_approve : bool;
}.

Record ApprovalRequest := {
  ar_job_id : string;
  approved : bool;
  rejected_pairs : option (list string);
}.

Inductive Request : Type :=
  | ReqStart (job_id : string) (config : StartJobRequest)
  | ReqApprove (request : ApprovalRequest)
  | ReqConnect (job_id : string) (websocket : WebSocket)
  | ReqDisconnect (job_id : string) (websocket : WebSocket)
  | ReqDrop (websocket : WebSocket).

Record World := mkWorld {
  objs : list Dict;
  jobs : list (string * nat);
  websocket_clients : gmap string (list WebSocket);
  time : Z;
  inbox : list (Z * Request);
  closed : gset WebSocket;
  sent : list (WebSocket * Value);
  history : list (string * Dict);
  sf_calls : list (list Dict);
}.

Definition set_objs (f : list Dict → list Dict) (w : World) : World :=
  mkWorld (f (objs w)) (jobs w) (websocket_clients w) (time w) (inbox w)
          (closed w) (sent w) (history w) (sf_calls w).
Definition set_jobs (f : list (string * nat) → list (string * nat)) (w : World) : World :=
  mkWorld (objs w) (f (jobs w)) (websocket_clients w) (time w) (inbox w)
          (closed w) (sent w) (history w) (sf_calls w).
Definition set_clients
    (f : gmap string (list WebSocket) → gmap string (list WebSocket)) (w : World) : World :=
  mkWorld (objs w) (jobs w) (f (websocket_clients w)) (time w) (inbox w)
          (closed w) (sent w) (history w) (sf_calls w).
Definition set_time (t : Z) (w : World) : World :=
  mkWorld (objs w) (jobs w) (websocket_clients w) t (inbox w)
          (closed w) (sent w) (history w) (sf_calls w).
Definition set_inbox (i : list (Z * Request)) (w : World) : World :=
  mkWorld (objs w) (jobs w) (websocket_clients w) (time w) i
          (closed w) (sent w) (history w) (sf_calls w).
Definition set_closed (f : gset WebSocket → gset WebSocket) (w : World) : World :=
  mkWorld (objs w) (jobs w) (websocket_clients w) (time w) (inbox w)
          (f (closed w)) (sent w) (history w) (sf_calls w).
Definition log_sent (ws : WebSocket) (m : Value) (w : World) : World :=
  mkWorld (objs w) (jobs w) (websocket_clients w) (time w) (inbox w)
          (closed w) (sent w ++ [(ws, m)]) (history w) (sf_calls w).
Definition log_history (job_id : string) (snapshot : Dict) (w : World) : World :=
  mkWorld (objs w) (jobs w) (websocket_clients w) (time w) (inbox w)
          (closed w) (sent w) (history w ++ [(job_id, snapshot)]) (sf_calls w).
Definition log_sf_call (batch : list Dict) (w : World) : World :=
  mkWorld (objs w) (jobs w) (websocket_clients w) (time w) (inbox w)
          (closed w) (sent w) (history w) (sf_calls w ++ [batch]).

(** Insertion-ordered dictionary: assigning to a present key keeps its
    place, a new key goes last. *)
Fixpoint od_get {V} (k : string) (d : list (string * V)) : option V :=
  match d with
  | [] => None
  | (k', v) :: d' => if decide (k = k') then Some v else od_get k d'
  end.

Fixpoint od_set {V} (k : string) (v : V) (d : list (string * V)) : list (string * V) :=
  match d with
  | [] => [(k, v)]
  | (k', v') :: d' =>
      if decide (k = k') then (k, v) :: d' else (k', v') :: od_set k v d'
  end.

(** The record a reference points to. *)
Definition deref (w : World) (r : nat) : Dict := default ∅ (objs w !! r).

(** The record stored under a job id. *)
Definition job_of (w : World) (job_id : string) : option Dict :=
  r ← od_get job_id (jobs w); objs w !! r.

(** ** The monad of operations: state and exceptions *)

Definition M (A : Type) : Type := World → Res A * World.

#[global] Instance M_ret : MRet M := λ A a w, (Ok a, w).
#[global] Instance M_bind : MBind M := λ A B f m w,
  match m w with
  | (Ok a, w') => f a w'
  | (Raise e, w') => (Raise e, w')
  end.

Definition raise {A} (e : Exn) : M A := λ w, (Raise e, w).
Definition lift {A} (r : Res A) : M A := λ w, (r, w).
Definition gets {A} (f : World → A) : M A := λ w, (Ok (f w), w).
Definition modify (f : World → World) : M unit := λ w, (Ok (), f w).

(** [try: m  except Exception as e: h e] *)
Definition try_except {A} (m : M A) (h : Exn → M A) : M A := λ w,
  match m w with
  | (Raise e, w') => h e w'
  | r => r
  end.

(** [for x in l: body x] *)
Fixpoint for_each {A} (l : list A) (body : A → M unit) : M unit :=
  match l with
  | [] => mret ()
  | x :: l' => body x;; for_each l' body
  end.

(** The text of a clock reading; instants are seconds, and the calendar
    layout of the text is immaterial. *)
Definition isoformat (t : Z) : string := pretty t.

(** [datetime.now().isoformat()] *)
Definition now : M Value := gets (λ w, VStr (isoformat (time w))).

(** [datetime.now().strftime('%Y-%m-%d')] *)
Definition today : M string := gets (λ w, isoformat (time w)).

(** [str(v)] inside an f-string. Lists and dictionaries are abbreviated:
    no operation below reads the rendering of one. *)
Definition str_value (v : Value) : string :=
  match v with
  | VNone => "None"
  | VBool true => "True"
  | VBool false => "False"
  | VInt n => pretty n
  | VStr s => s
  | VList _ => "[...]"
  | VDict _ => "{...}"
  end.

(** ** JobManager ([main.py]) *)

Definition config_dict (c : StartJobRequest) : Dict :=
  {[ "batch_size" := from_option VInt VNone (batch_size c);
     "owner_filter" := from_option (λ l, VList (VStr <$> l)) VNone (owner_filter c);
     "auto_approve" := VBool (auto_approve c) ]}.

Definition new_job (job_id : string) (config : StartJobRequest)
    (created updated : Value) : Dict :=
  {[ "job_id" := VStr job_id;
     "status" := VStr "pending";
     "config" := VDict (config_dict config);
     "progress" := VDict {[ "phase" := VStr "initializing";
                            "current_step" := VInt 0;
                            "total_steps" := VInt 7;
                            "message" := VStr "Job created" ]};
     "metrics" := VDict {[ "total_contacts" := VInt 0;
                           "total_owners" := VInt 0;
                           "emails_validated" := VInt 0;
                           "duplicates_found" := VInt 0;
                           "sfdc_updates" := VInt 0 ]};
     "phase_details" := VDict ∅;
     "pending_approval" := VNone;
     "results" := VNone;
     "error" := VNone;
     "created_at" := created;
     "updated_at" := updated ]}.

(** [job_id] is the value drawn by [uuid.uuid4()]. *)
Definition create_job (job_id : string) (config : StartJobRequest) : M string :=
  created ← now;
  updated ← now;
  let job := new_job job_id config created updated in
  modify (λ w,
    let r := length (objs w) in
    log_history job_id job
      (set_clients <[job_id := []]>
        (set_jobs (od_set job_id r)
          (set_objs (λ o, o ++ [job]) w))));;
  mret job_id.

Definition get_job (job_id : string) : M (option nat) :=
  gets (λ w, od_get job_id (jobs w)).

(** [list(self.jobs.values())]: a new list of the same references. *)
Definition list_jobs : M (list nat) :=
  gets (λ w, (jobs w).*2).

Definition add_websocket (job_id : string) (websocket : WebSocket) : M unit :=
  modify (set_clients (λ c, <[job_id := default [] (c !! job_id) ++ [websocket]]> c)).

(** [l.remove(x)] *)
Fixpoint list_remove (x : WebSocket) (l : list WebSocket) : Res (list WebSocket) :=
  match l with
  | [] => Raise (ValueError "list.remove(x): x not in list")
  | y :: l' =>
      if decide (x = y) then Ok l'
      else match list_remove x l' with
           | Ok r => Ok (y :: r)
           | Raise e => Raise e
           end
  end.

Definition remove_websocket (job_id : string) (websocket : WebSocket) : M unit :=
  cl ← gets (λ w, websocket_clients w !! job_id);
  match cl with
  | Some l =>
      try_except
        (l' ← lift (list_remove websocket l);
         modify (set_clients <[job_id := l']>))
        (λ e, match e with
              | ValueError _ => mret ()
              | _ => raise e
              end)
  | None => mret ()
  end.

(** [websocket.send_text(message)]: fails once the peer is gone. *)
Definition send_text (websocket : WebSocket) (message : Value) : M unit :=
  c ← gets closed;
  if decide (websocket ∈ c)
  then raise (RuntimeError "Cannot call send once a close message has been sent")
  else modify (log_sent websocket message).

Definition job_update_message (job_id : string) (data : Dict) : Value :=
  VDict {[ "type" := VStr "job_update";
           "job_id" := VStr job_id;
           "data" := VDict data ]}.

Definition broadcast_update (job_id : string) (data : nat) : M unit :=
  cl ← gets (λ w, websocket_clients w !! job_id);
  match cl with
  | None => mret ()
  | Some clients =>
      d ← gets (λ w, deref w data);
      let message := job_update_message job_id d in
      for_each clients (λ websocket,
        try_except (send_text websocket message)
                   (λ e, remove_websocket job_id websocket))
  end.

Definition update_job (job_id : string) (updates : Dict) : M unit :=
  ref ← get_job job_id;
  match ref with
  | None => raise (ValueError ("Job " +:+ job_id +:+ " not found"))
  | Some r =>
      t ← now;
      modify (λ w,
        let job := <["updated_at" := t]> (updates ∪ deref w r) in
        log_history job_id job (set_objs <[r := job]> w));;
      broadcast_update job_id r
  end.

(** ** Request handlers ([main.py]) *)

Definition start_dedup_job (job_id : string) (request : StartJobRequest) : M Value :=
  try_except
    (job_id ← create_job job_id request;
     t ← now;
     mret (VDict {[ "job_id" := VStr job_id;
                    "status" := VStr "pending";
                    "message" := VStr "Deduplication job started successfully";
                    "created_at" := t ]}))
    (λ e, raise (HTTPException 500 ("Failed to start job: " +:+ str_exn e))).

Definition approve_decision (request : ApprovalRequest) : M Value :=
  job ← get_job (ar_job_id request);
  match job with
  | None => raise (HTTPException 404 ("Job " +:+ ar_job_id request +:+ " not found"))
  | Some r =>
      j ← gets (λ w, deref w r);
      if negb (truthy (VDict j))
      then raise (HTTPException 404 ("Job " +:+ ar_job_id request +:+ " not found"))
      else
        status ← lift (getitem j "status");
        if negb (is_str status "awaiting_approval")
        then raise (HTTPException 400
               ("Job is not awaiting approval (current status: "
                +:+ str_value status +:+ ")"))
        else
          t ← now;
          update_job (ar_job_id request)
            {[ "approval_decision" :=
                 VDict {[ "approved" := VBool (approved request);
                          "rejected_pairs" :=
                            VList (VStr <$> default [] (rejected_pairs request));
                          "timestamp" := t ]};
               "status" := VStr "running" ]};;
          let verdict := if approved request then "approved" else "rejected" in
          mret (VDict {[ "job_id" := VStr (ar_job_id request);
                         "status" := VStr verdict;
                         "message" := VStr ("Decision " +:+ verdict +:+ " successfully") ]})
  end.

(** [websocket_updates] up to its receive loop: register the socket and
    send the current record; a failure ends the handler, whose [finally]
    unregisters the socket. *)
Definition websocket_connect (job_id : string) (websocket : WebSocket) : M unit :=
  add_websocket job_id websocket;;
  try_except
    (job ← get_job job_id;
     match job with
     | Some r =>
         j ← gets (λ w, deref w r);
         if truthy (VDict j)
         then send_text websocket
                (VDict {[ "type" := VStr "initial_state";
                          "job_id" := VStr job_id;
                          "data" := VDict j ]})
         else mret ()
     | None => mret ()
     end)
    (λ e, remove_websocket job_id websocket).

(** The peer closes: the receive loop ends and [finally] unregisters. *)
Definition websocket_disconnect (job_id : string) (websocket : WebSocket) : M unit :=
  modify (set_closed (λ c, {[websocket]} ∪ c));;
  remove_websocket job_id websocket.

(** One request served; the exception handlers of the application turn
    every exception into a response, so nothing escapes. *)
Definition handle (r : Request) : M unit :=
  try_except
    (match r with
     | ReqStart job_id config => start_dedup_job job_id config;; mret ()
     | ReqApprove request => approve_decision request;; mret ()
     | ReqConnect job_id ws => websocket_connect job_id ws
     | ReqDisconnect job_id ws => websocket_disconnect job_id ws
     | ReqDrop ws => modify (set_closed (λ c, {[ws]} ∪ c))
     end)
    (λ e, mret ()).

(** [time.sleep(secs)]: the worker is suspended; the serving path handles,
    in order, the requests that arrive meanwhile. *)
Definition sleep (secs : Z) : M unit :=
  t ← gets time;
  pending ← gets inbox;
  let target := t + secs in
  modify (set_inbox (filter (λ p, target < p.1) pending));;
  for_each (filter (λ p, p.1 ≤ target) pending) (λ p,
    modify (λ w, set_time (Z.max (time w) p.1) w);;
    handle p.2);;
  modify (set_time target).

(** ** The approval gate ([agent/dedup_agent.py])

    The clock is ideal: reading the store takes no time and
    [time.sleep(2)] takes two seconds. *)

(** [job and job.get("approval_decision")], when truthy *)
Definition stored_decision (w : World) (job_id : string) : option Value :=
  match od_get job_id (jobs w) with
  | Some r =>
      let j := deref w r in
      if (truthy (VDict j) && truthy (get j "approval_decision"))%bool
      then Some (get j "approval_decision")
      else None
  | None => None
  end.

(** The polling loop; [None] only when [fuel] runs out. *)
Fixpoint wait_loop (fuel : nat) (job_id : string) (timeout start_time : Z)
    : M (option Value) :=
  match fuel with
  | O => mret None
  | S fuel' =>
      t ← gets time;
      if bool_decide (t - start_time < timeout) then
        found ← gets (λ w, stored_decision w job_id);
        match found with
        | Some (VDict decision) =>
            mret (Some (get_or decision "approved" (VBool false)))
        | Some _ =>
            raise (AttributeError "object has no attribute 'get'")
        | None =>
            sleep 2;;
            wait_loop fuel' job_id timeout start_time
        end
      else mret (Some (VBool false))
  end.

(** Every turn of the loop sleeps two seconds, so [timeout] turns and one
    more always suffice. *)
Definition wait_for_approval (job_id : string) (timeout : Z) : M Value :=
  start_time ← gets time;
  r ← wait_loop (S (Z.to_nat timeout)) job_id timeout start_time;
  mret (default (VBool false) r).

(** ** Pure code that may raise *)

#[global] Instance Res_ret : MRet Res := λ A a, Ok a.
#[global] Instance Res_bind : MBind Res := λ A B f r,
  match r with
  | Ok a => f a
  | Raise e => Raise e
  end.

(** ** Duplicate marking ([agent/langsmith_wrapper.py]) *)

(** The key a JSON value denotes in a dictionary keyed by record ids;
    [1] and [True], [0] and [False] are the same key, a list or a
    dictionary cannot be a key. *)
Definition key_of (v : Value) : Res (option Field) :=
  match v with
  | VNone => Ok (Some FNull)
  | VBool b => Ok (Some (FBool b))
  | VStr s => Ok (Some (FStr s))
  | VInt n =>
      Ok (if decide (n = 1) then Some (FBool true)
          else if decide (n = 0) then Some (FBool false)
          else None)
  | VList _ => Raise (TypeError "unhashable type: 'list'")
  | VDict _ => Raise (TypeError "unhashable type: 'dict'")
  end.

(** [contacts_dict.get(contact_id)] *)
Definition lookup_contact (contacts_dict : gmap Field Contact) (contact_id : Value)
    : Res (option Contact) :=
  k ← key_of contact_id;
  mret (k ≫= λ k, contacts_dict !! k).

(** [not contact]: absent, or a record with no column at all *)
Definition falsy_contact (c : option Contact) : bool :=
  match c with
  | Some c => Nat.eqb (size c) 0
  | None => true
  end.

(** [f"{c.get('FirstName', '')} {c.get('LastName', '')}".strip()] *)
Definition full_name (c : Contact) : string :=
  py_strip (str_field (cget_or c "FirstName" (FStr "")) +:+ " "
            +:+ str_field (cget_or c "LastName" (FStr ""))).

(** [bool(c.get(k))] *)
Definition has (c : Contact) (k : string) : bool := truthy_field (cget c k).

Definition determine_canonical_name (contact1 contact2 : Contact) : string :=
  let name1 := full_name contact1 in
  let name2 := full_name contact2 in
  let score1 := py_len name1 in
  let score2 := py_len name2 in
  let score1 := if has contact1 "Phone" then score1 + 10 else score1 in
  let score2 := if has contact2 "Phone" then score2 + 10 else score2 in
  let score1 := if has contact1 "Title" then score1 + 10 else score1 in
  let score2 := if has contact2 "Title" then score2 + 10 else score2 in
  if bool_decide (score2 ≤ score1) then name1 else name2.

Definition append_if {A} (b : bool) (x : A) (l : list A) : list A :=
  if b then l ++ [x] else l.

Definition nonempty {A} (l : list A) : bool :=
  match l with [] => false | _ => true end.

Definition generate_justification (contact other_contact : Contact)
    (is_suggested_delete : bool) : string :=
  let name1 := full_name contact in
  let name2 := full_name other_contact in
  let has_phone := has contact "Phone" in
  let has_title := has contact "Title" in
  let is_bounced := has contact "EmailBouncedReason" in
  let other_has_phone := has other_contact "Phone" in
  let other_has_title := has other_contact "Title" in
  let justification :=
    if is_suggested_delete then
      let parts : list string := [] in
      let parts :=
        append_if (negb (String.eqb name1 name2))
          (if String.eqb (py_lower name1) (py_lower name2)
           then "Name capitalization differs from '" +:+ name2 +:+ "'"
           else "Likely typo/variant of '" +:+ name2 +:+ "'")
          parts in
      let missing : list string := [] in
      let missing := append_if (negb has_phone && other_has_phone) "phone" missing in
      let missing := append_if (negb has_title && other_has_title) "title" missing in
      let parts :=
        append_if (nonempty missing) ("missing " +:+ py_join " and " missing) parts in
      let parts := append_if is_bounced "email bounced" parts in
      let parts :=
        append_if (negb (nonempty parts)) "less complete than other record" parts in
      py_capitalize (py_join "; " parts)
    else
      let parts : list string := [] in
      let has_data : list string := [] in
      let has_data := append_if has_phone "phone" has_data in
      let has_data := append_if has_title "title" has_data in
      let parts :=
        append_if (nonempty has_data) ("Has " +:+ py_join " and " has_data) parts in
      let parts :=
        append_if (negb (String.eqb name1 name2)
                   && bool_decide (py_len name2 < py_len name1))
          "more complete name" parts in
      let parts := append_if (negb is_bounced) "valid email" parts in
      let parts := append_if (negb (nonempty parts)) "More complete record" parts in
      py_join "; " parts
  in str_take 255 justification.

(** The completeness scores of the two contacts of a pair. *)
Definition action_scores (contact1 contact2 : Contact) : Z * Z :=
  let score1 := 0 in
  let score2 := 0 in
  let score1 := if has contact1 "Phone" then score1 + 1 else score1 in
  let score2 := if has contact2 "Phone" then score2 + 1 else score2 in
  let score1 := if has contact1 "Title" then score1 + 1 else score1 in
  let score2 := if has contact2 "Title" then score2 + 1 else score2 in
  let score1 := if has contact1 "EmailBouncedReason" then score1 - 2 else score1 in
  let score2 := if has contact2 "EmailBouncedReason" then score2 - 2 else score2 in
  let name1 := full_name contact1 in
  let name2 := full_name contact2 in
  if bool_decide (py_len name2 < py_len name1) then (score1 + 1, score2)
  else if bool_decide (py_len name1 < py_len name2) then (score1, score2 + 1)
  else (score1, score2).

Definition suggested_actions (contact1 contact2 : Contact) : string * string :=
  let '(score1, score2) := action_scores contact1 contact2 in
  if bool_decide (score1 < score2) then ("Delete", "Keep - Not a duplicate")
  else if bool_decide (score2 < score1) then ("Keep - Not a duplicate", "Delete")
  else ("Merge into other record", "Merge into other record").

Definition marking_update (today : string) (contact_id : Value)
    (canonical_name justification suggested_action : string) : Dict :=
  {[ "Id" := contact_id;
     "Email_Status__c" := VStr "Duplicate";
     "email_last_updated_date__c" := VStr today;
     "Duplicate_Group_Name__c" := VStr canonical_name;
     "Duplicate_Justification__c" := VStr justification;
     "Suggested_Action__c" := VStr suggested_action;
     "Duplicate_Reviewed__c" := VBool false ]}.

Definition decision_side (contact_id : Value) (contact : Contact)
    (justification suggested_action : string) : Value :=
  VDict {[ "id" := contact_id;
           "name" := VStr (full_name contact);
           "email" := field_value (cget_or contact "Email" (FStr ""));
           "phone" := field_value (cget_or contact "Phone" (FStr "N/A"));
           "title" := field_value (cget_or contact "Title" (FStr "N/A"));
           "justification" := VStr justification;
           "suggested_action" := VStr suggested_action ]}.

(** One turn of the marking loop: [None] is [continue], otherwise the two
    update payloads and the decision. *)
Definition mark_pair (today : string) (contacts_dict : gmap Field Contact)
    (pair : Dict) : Res (option (list Dict * Dict)) :=
  contact_id_1 ← getitem pair "contact_id_1";
  contact_id_2 ← getitem pair "contact_id_2";
  contact1 ← lookup_contact contacts_dict contact_id_1;
  contact2 ← lookup_contact contacts_dict contact_id_2;
  match contact1, contact2 with
  | Some c1, Some c2 =>
      if (falsy_contact contact1 || falsy_contact contact2)%bool then mret None
      else
        let canonical_name := determine_canonical_name c1 c2 in
        let '(suggested_action_1, suggested_action_2) := suggested_actions c1 c2 in
        let justification_1 :=
          generate_justification c1 c2 (String.eqb suggested_action_1 "Delete") in
        let justification_2 :=
          generate_justification c2 c1 (String.eqb suggested_action_2 "Delete") in
        let update1 :=
          marking_update today contact_id_1 canonical_name justification_1
                         suggested_action_1 in
        let update2 :=
          marking_update today contact_id_2 canonical_name justification_2
                         suggested_action_2 in
        confidence ← getitem pair "confidence";
        reasoning ← getitem pair "reasoning";
        mret (Some ([update1; update2],
          {[ "account_name" := get_or pair "account_name" (VStr "Unknown");
             "confidence" := confidence;
             "reasoning" := reasoning;
             "canonical_name" := VStr canonical_name;
             "contact_1" :=
               decision_side contact_id_1 c1 justification_1 suggested_action_1;
             "contact_2" :=
               decision_side contact_id_2 c2 justification_2 suggested_action_2 ]}))
  | _, _ => mret None
  end.

(** The marking loop over [duplicate_pairs], threading [updates] and
    [decisions]. *)
Fixpoint marking_loop (today : string) (contacts_dict : gmap Field Contact)
    (duplicate_pairs : list Dict) (updates decisions : list Dict)
    : Res (list Dict * list Dict) :=
  match duplicate_pairs with
  | [] => mret (updates, decisions)
  | p :: rest =>
      r ← mark_pair today contacts_dict p;
      match r with
      | Some (us, d) =>
          marking_loop today contacts_dict rest (updates ++ us) (decisions ++ [d])
      | None => marking_loop today contacts_dict rest updates decisions
      end
  end.

Definition len {A} (l : list A) : Z := Z.of_nat (length l).

Record MarkingResult := {
  mr_status : string;
  total_updates : Z;
  duplicate_groups : Z;
  mr_updates : list Dict;
  decisions : list Dict;
}.

Definition traced_duplicate_marking (today : string)
    (duplicate_pairs : list Dict) (contacts_dict : gmap Field Contact)
    : Res MarkingResult :=
  '(updates, decisions) ← marking_loop today contacts_dict duplicate_pairs [] [];
  mret {| mr_status := "success";
          total_updates := len updates;
          duplicate_groups := len decisions;
          mr_updates := updates;
          decisions := decisions |}.

(** ** Salesforce update ([agent/langsmith_wrapper.py]) *)

(** The connection object, seen through [sf.bulk.Contact.update]. *)
Abbreviation SfConn := (list Dict → Res (list Dict)).

(** The counters of the update loop, which survive an exception. *)
Record Tally := {
  success_count : Z;
  errors : list Value;
}.

(** [for idx, result in enumerate(results)] *)
Fixpoint tally_results (batch : list Dict) (idx : nat) (results : list Dict)
    (t : Tally) : Tally * option Exn :=
  match results with
  | [] => (t, None)
  | result :: rest =>
      match getitem result "success" with
      | Raise e => (t, Some e)
      | Ok ok =>
          if truthy ok then
            tally_results batch (S idx) rest
              {| success_count := success_count t + 1; errors := errors t |}
          else
            match batch !! idx with
            | None => (t, Some (IndexError "list index out of range"))
            | Some request =>
                match getitem request "Id" with
                | Raise e => (t, Some e)
                | Ok contact_id =>
                    tally_results batch (S idx) rest
                      {| success_count := success_count t;
                         errors := errors t ++
                           [VDict {[ "contact_id" := contact_id;
                                     "error" := get_or result "errors"
                                                  (VStr "Unknown error") ]}] |}
                end
            end
      end
  end.

(** [range(0, stop, step)] for [stop ≥ 0] *)
Definition py_range (stop step : Z) : Res (list Z) :=
  if decide (step = 0) then Raise (ValueError "range() arg 3 must not be zero")
  else if decide (step < 0) then Ok []
  else Ok ((λ k : nat, Z.of_nat k * step) <$> seq 0 (Z.to_nat ((stop + step - 1) / step))).

Definition sf_bulk_update (sf : option SfConn) (batch : list Dict) : Res (list Dict) :=
  match sf with
  | Some update => update batch
  | None => Raise (AttributeError "'NoneType' object has no attribute 'bulk'")
  end.

(** [for i in range(0, len(updates), batch_size)] *)
Fixpoint update_batches (sf : option SfConn) (updates : list Dict) (batch_size : Z)
    (starts : list Z) (t : Tally) : M (Tally * option Exn) :=
  match starts with
  | [] => mret (t, None)
  | i :: rest =>
      let batch := take (Z.to_nat batch_size) (drop (Z.to_nat i) updates) in
      modify (log_sf_call batch);;
      match sf_bulk_update sf batch with
      | Raise e => mret (t, Some e)
      | Ok results =>
          match tally_results batch 0 results t with
          | (t', Some e) => mret (t', Some e)
          | (t', None) => update_batches sf updates batch_size rest t'
          end
      end
  end.

(** The dictionary returned by the update; [None] is an absent key. *)
Record UpdateResult := {
  ur_status : string;
  ur_message : option string;
  ur_success_count : Z;
  ur_error_count : Z;
  ur_errors : option (list Value);
}.

Definition update_failed (updates : list Dict) (t : Tally) (e : Exn) : UpdateResult :=
  {| ur_status := "error";
     ur_message := Some ("Batch update failed: " +:+ str_exn e);
     ur_success_count := success_count t;
     ur_error_count := len updates - success_count t;
     ur_errors := None |}.

Definition traced_salesforce_update (sf : option SfConn) (updates : list Dict)
    (batch_size : Z) : M UpdateResult :=
  if negb (nonempty updates) then
    mret {| ur_status := "success";
            ur_message := Some "No updates needed";
            ur_success_count := 0;
            ur_error_count := 0;
            ur_errors := None |}
  else
    let start := {| success_count := 0; errors := [] |} in
    match py_range (len updates) batch_size with
    | Raise e => mret (update_failed updates start e)
    | Ok starts =>
        '(t, exn) ← update_batches sf updates batch_size starts start;
        match exn with
        | Some e => mret (update_failed updates t e)
        | None =>
            mret {| ur_status := if nonempty (errors t) then "partial" else "success";
                    ur_message := None;
                    ur_success_count := success_count t;
                    ur_error_count := len (errors t);
                    ur_errors := Some (take 10 (errors t)) |}
        end
    end.

(** [tools.update_salesforce_contacts(sf, updates)], with the default
    batch size. *)
Definition update_salesforce_contacts (sf : option SfConn) (updates : list Dict)
    : M UpdateResult :=
  traced_salesforce_update sf updates 200.

(** ** The collaborators ([agent/tools.py])

    Salesforce, Claude and the report writers are outside the program;
    each is taken by its result, which may be an exception. *)

Record ConnResult := {
  conn_status : string;
  conn_message : string;
  connection : option SfConn;
}.

Record ExtractionResult := {
  ex_status : string;
  ex_message : string;
  total_contacts : Z;
  owner_count : Z;
  contacts_by_owner : list (string * list Contact);
  all_contacts : list Contact;
}.

Record ValidationResult := {
  total_processed : Z;
  vr_updates : list Dict;
}.

Record Tools := {
  (** [Anthropic(api_key=...)] *)
  anthropic_client : Res unit;
  (** [output_dir.mkdir(parents=True, exist_ok=True)] *)
  make_output_dir : Res unit;
  connect_to_salesforce : ConnResult;
  (** arguments: [batch_size], [owner_filter] *)
  extract_contacts : Value → Value → Res ExtractionResult;
  extract_email_activities : list Field → Res Value;
  validate_emails : list Contact → Value → Res ValidationResult;
  (** the duplicate pairs Claude reports for one owner *)
  detect_duplicates_for_owner : string → list Contact → Res (list Dict);
  (** the owner reports, the master summary and the cost report, from the
      duplicate pairs and the metrics; the result is the cost summary *)
  generate_reports : list Dict → Dict → Res Value;
}.

(** ** The workflow ([agent/dedup_agent.py]) *)

(** [{c['Id']: c for c in all_contacts}] *)
Fixpoint contacts_by_id (cs : list Contact) (acc : gmap Field Contact)
    : Res (gmap Field Contact) :=
  match cs with
  | [] => Ok acc
  | c :: rest =>
      match c !! "Id" with
      | Some k => contacts_by_id rest (<[k := c]> acc)
      | None => Raise (KeyError "Id")
      end
  end.

(** The loop of phase 4 over the owners. *)
Fixpoint detect_all (T : Tools) (owners : list (string * list Contact))
    (all_duplicate_pairs : list Dict) : Res (list Dict) :=
  match owners with
  | [] => Ok all_duplicate_pairs
  | (owner_id, owner_contacts) :: rest =>
      duplicate_pairs ← detect_duplicates_for_owner T owner_id owner_contacts;
      detect_all T rest
        (if nonempty duplicate_pairs then all_duplicate_pairs ++ duplicate_pairs
         else all_duplicate_pairs)
  end.

Definition update_progress (job_id phase : string) (step : Z) (message : string)
    : M unit :=
  try_except
    (update_job job_id
       {[ "progress" := VDict {[ "phase" := VStr phase;
                                 "current_step" := VInt step;
                                 "total_steps" := VInt 7;
                                 "message" := VStr message ]} ]})
    (λ e, mret ()).

Definition cancelled_result (metrics : Dict) : Dict :=
  {[ "status" := VStr "cancelled";
     "message" := VStr "Job cancelled by user";
     "metrics" := VDict metrics ]}.

(** An approval checkpoint: when [auto_approve] is off, publish
    [pending_approval], wait, and return the cancelled result unless
    approved; otherwise go on with [continue]. *)
Definition approval_checkpoint (job_id : string) (auto_approve : Value)
    (announce : M unit) (pending_approval : Dict) (metrics : Dict)
    (continue : M Dict) : M Dict :=
  if negb (truthy auto_approve) then
    announce;;
    update_job job_id {[ "status" := VStr "awaiting_approval";
                         "pending_approval" := VDict pending_approval ]};;
    approved ← wait_for_approval job_id 3600;
    if negb (truthy approved) then mret (cancelled_result metrics)
    else continue
  else continue.

(** Phase 7 and the result of a full run. *)
Definition finish (T : Tools) (job_id : string) (all_duplicate_pairs : list Dict)
    (metrics : Dict) : M Dict :=
  update_progress job_id "phase_7_reports" 7 "Generating reports...";;
  cost_summary ← lift (generate_reports T all_duplicate_pairs metrics);
  end_time ← now;
  let metrics := <["end_time" := end_time]> metrics in
  mret ({[ "status" := VStr "success";
           "metrics" := VDict metrics;
           "cost_summary" := cost_summary;
           "reports_dir" := VStr ("reports/job_" +:+ job_id);
           "duplicate_pairs_found" := VInt (len all_duplicate_pairs) ]} : Dict).

(** What phase 6 writes into [metrics] from the update result. *)
Definition record_update (metrics : Dict) (update_result : UpdateResult) : Res Dict :=
  let metrics := <["sfdc_updates" := VInt (ur_success_count update_result)]> metrics in
  if bool_decide (0 < ur_error_count update_result) then
    match ur_errors update_result with
    | Some errs => Ok (<["errors" := VList errs]> metrics)
    | None => Raise (KeyError "errors")
    end
  else Ok metrics.

(** Phase 6 *)
Definition update_phase (T : Tools) (job_id : string) (auto_approve : Value)
    (sf_connection : option SfConn) (all_duplicate_pairs all_updates : list Dict)
    (metrics : Dict) : M Dict :=
  if nonempty all_updates then
    update_progress job_id "phase_6_update" 6
      ("Updating " +:+ pretty (len all_updates) +:+ " contacts in Salesforce...");;
    approval_checkpoint job_id auto_approve (mret ())
      {[ "stage" := VStr "salesforce_update";
         "total_updates" := VInt (len all_updates);
         "message" := VStr ("Ready to update " +:+ pretty (len all_updates)
                            +:+ " contacts in Salesforce") ]}
      metrics
      (update_result ← update_salesforce_contacts sf_connection all_updates;
       metrics ← lift (record_update metrics update_result);
       finish T job_id all_duplicate_pairs metrics)
  else finish T job_id all_duplicate_pairs metrics.

(** Phase 5 *)
Definition marking_phase (T : Tools) (job_id : string) (auto_approve : Value)
    (sf_connection : option SfConn) (contacts_dict : gmap Field Contact)
    (all_duplicate_pairs all_updates : list Dict) (metrics : Dict) : M Dict :=
  update_progress job_id "phase_5_mark" 5
    ("Preparing to mark " +:+ pretty (len all_duplicate_pairs)
     +:+ " duplicate pairs...");;
  if nonempty all_duplicate_pairs then
    d ← today;
    marking_result ← lift (traced_duplicate_marking d all_duplicate_pairs contacts_dict);
    approval_checkpoint job_id auto_approve
      (update_progress job_id "awaiting_approval" 5
         "Awaiting human approval for duplicate marking...")
      {[ "stage" := VStr "duplicate_marking";
         "total_updates" := VInt (total_updates marking_result);
         "decisions" := VList (VDict <$> decisions marking_result);
         "message" := VStr ("Ready to mark " +:+ pretty (total_updates marking_result)
                            +:+ " contacts as duplicates") ]}
      metrics
      (update_phase T job_id auto_approve sf_connection all_duplicate_pairs
         (all_updates ++ mr_updates marking_result) metrics)
  else
    update_phase T job_id auto_approve sf_connection all_duplicate_pairs
      all_updates metrics.

(** The body of the [try] of [run_agent_workflow]: phases 1 to 7. *)
Definition workflow_phases (T : Tools) (job_id : string) (job_config : Dict)
    (metrics : Dict) : M Dict :=
  let batch_size := get job_config "batch_size" in
  let auto_approve := get_or job_config "auto_approve" (VBool false) in
  update_progress job_id "phase_1_connect" 1 "Connecting to Salesforce...";;
  let conn_result := connect_to_salesforce T in
  if negb (String.eqb (conn_status conn_result) "success")
  then raise (Exception (conn_message conn_result))
  else
    let sf_connection := connection conn_result in
    update_progress job_id "phase_2_extract" 2
      "Extracting contacts grouped by Account Owner...";;
    extraction_result ←
      lift (extract_contacts T batch_size (get job_config "owner_filter"));
    if negb (String.eqb (ex_status extraction_result) "success")
    then raise (Exception (ex_message extraction_result))
    else
      let metrics := <["total_contacts" := VInt (total_contacts extraction_result)]> metrics in
      let metrics := <["total_owners" := VInt (owner_count extraction_result)]> metrics in
      contacts_dict ← lift (contacts_by_id (all_contacts extraction_result) ∅);
      update_progress job_id "phase_3_validate" 3
        ("Validating " +:+ pretty (total_contacts extraction_result)
         +:+ " email addresses...");;
      (* list(contacts_dict.keys()), in some order *)
      let contact_ids := (map_to_list contacts_dict).*1 in
      activities ← lift (extract_email_activities T contact_ids);
      validation_result ←
        lift (validate_emails T (all_contacts extraction_result) activities);
      let metrics := <["emails_validated" := VInt (total_processed validation_result)]> metrics in
      update_progress job_id "phase_4_detect" 4
        ("Detecting duplicates across " +:+ pretty (owner_count extraction_result)
         +:+ " Account Owners...");;
      all_duplicate_pairs ← lift (detect_all T (contacts_by_owner extraction_result) []);
      let metrics := <["duplicates_found" := VInt (len all_duplicate_pairs)]> metrics in
      marking_phase T job_id auto_approve sf_connection contacts_dict
        all_duplicate_pairs (vr_updates validation_result) metrics.

(** [job_config.get] needs a dictionary. *)
Definition as_dict (v : Value) : Res Dict :=
  match v with
  | VDict d => Ok d
  | _ => Raise (AttributeError "object has no attribute 'get'")
  end.

(** [metrics] as the workflow starts *)
Definition initial_metrics (start_time : Value) : Dict :=
  {[ "start_time" := start_time;
     "total_contacts" := VInt 0;
     "total_owners" := VInt 0;
     "emails_validated" := VInt 0;
     "duplicates_found" := VInt 0;
     "sfdc_updates" := VInt 0;
     "errors" := VList [] ]}.

Definition run_agent_workflow (T : Tools) (job_id : string) (job_config : Value)
    : M Dict :=
  lift (anthropic_client T);;
  job_config ← lift (as_dict job_config);
  lift (make_output_dir T);;
  start_time ← now;
  let metrics := initial_metrics start_time in
  (* except: metrics["errors"].append(str(e)); raise -- [metrics] is local
     and is dropped with the exception *)
  try_except (workflow_phases T job_id job_config metrics) (λ e, raise e).

(** ** The runner ([main.py]) *)

(** The [try] block of [run_agent_job]. *)
Definition run_agent_job_body (T : Tools) (job_id : string) : M unit :=
  job ← get_job job_id;
  match job with
  | None => mret ()
  | Some r =>
      j ← gets (λ w, deref w r);
      if negb (truthy (VDict j)) then mret ()
      else
        config ← lift (getitem j "config");
        update_job job_id
          {[ "status" := VStr "running";
             "progress" := VDict {[ "phase" := VStr "phase_1_connect";
                                    "current_step" := VInt 1;
                                    "total_steps" := VInt 7;
                                    "message" := VStr "Connecting to Salesforce..." ]} ]};;
        result ← run_agent_workflow T job_id config;
        update_job job_id
          {[ "status" := VStr "completed";
             "results" := VDict result;
             "progress" := VDict {[ "phase" := VStr "completed";
                                    "current_step" := VInt 7;
                                    "total_steps" := VInt 7;
                                    "message" := VStr "Job completed successfully" ]} ]}
  end.

(** The [except Exception] handler of [run_agent_job]. *)
Definition job_failed (job_id : string) (e : Exn) : M unit :=
  update_job job_id
    {[ "status" := VStr "failed";
       "error" := VStr (str_exn e);
       "progress" := VDict {[ "phase" := VStr "failed";
                              "message" := VStr ("Job failed: " +:+ str_exn e) ]} ]}.

Definition run_agent_job (T : Tools) (job_id : string) : M unit :=
  try_except (run_agent_job_body T job_id) (job_failed job_id).

(** ** Vocabulary of the statements *)

Definition decision_action (d : Dict) (side : string) : option Value :=
  match d !! side with
  | Some (VDict s) => s !! "suggested_action"
  | _ => None
  end.

Definition resolves (contacts_dict : gmap Field Contact) (contact_id : Value) : bool :=
  match lookup_contact contacts_dict contact_id with
  | Ok c => negb (falsy_contact c)
  | Raise _ => false
  end.

Definition pair_resolves (contacts_dict : gmap Field Contact) (p : Dict) : bool :=
  resolves contacts_dict (get p "contact_id_1")
  && resolves contacts_dict (get p "contact_id_2").

Definition hashable (v : Value) : bool :=
  match v with
  | VList _ | VDict _ => false
  | _ => true
  end.

Definition has_key (d : Dict) (k : string) : bool :=
  match d !! k with Some _ => true | None => false end.

Definition well_formed_pair (contacts_dict : gmap Field Contact) (p : Dict) : bool :=
  has_key p "contact_id_1" && has_key p "contact_id_2"
  && hashable (get p "contact_id_1") && hashable (get p "contact_id_2")
  && (negb (pair_resolves contacts_dict p)
      || (has_key p "confidence" && has_key p "reasoning")).


(** A request succeeded when [result['success']] is truthy. *)
Definition succeeded (result : Dict) : bool := truthy (get result "success").

(** A sink that answers request by request: [outcome u] is the result
    Salesforce gives for the request [u]. *)
Definition per_request_sink (outcome : Dict → Dict) : SfConn :=
  λ batch, Ok (outcome <$> batch).

(** The number of requests of [updates] that fail individually. *)
Definition count_failed (outcome : Dict → Dict) (updates : list Dict) : Z :=
  len (List.filter (λ u, negb (succeeded (outcome u))) updates).

(** A request carries its record id, and its result says whether it
    succeeded. *)
Definition answerable (outcome : Dict → Dict) (u : Dict) : Prop :=
  is_Some (u !! "Id") ∧ is_Some (outcome u !! "success").

(** [len(metrics["errors"])] *)
Definition errors_recorded (metrics : Dict) : option Z :=
  match metrics !! "errors" with
  | Some (VList l) => Some (len l)
  | _ => None
  end.

(** [w'] has the job records, the clock, the pending requests and the
    logs of the store and of the sink of [w]: at most the subscriber lists
    and the frames sent differ. *)
Definition same_jobs (w w' : World) : Prop :=
  objs w' = objs w ∧ jobs w' = jobs w ∧ time w' = time w ∧ inbox w' = inbox w ∧
  closed w' = closed w ∧ history w' = history w ∧ sf_calls w' = sf_calls w.

(** Every reference held by [jobs] points into the heap. *)
Definition wf (w : World) : Prop :=
  Forall (λ kr, (kr.2 < length (objs w))%nat) (jobs w).

(** The record [update_job] leaves behind. *)
Definition updated (updates job : Dict) (t : Z) : Dict :=
  <["updated_at" := VStr (isoformat t)]> (updates ∪ job).

(** The records a list of references shows in [w]. *)
Definition view (w : World) (refs : list nat) : list Dict := deref w <$> refs.

(** [job["status"] == "awaiting_approval"] *)
Definition awaiting (job : Dict) : bool :=
  is_str (get job "status") "awaiting_approval".

(** The decision a request leaves in the record. *)
Definition decision_of (job : Dict) : option Value :=
  match job !! "approval_decision" with
  | Some (VDict d) => d !! "approved"
  | _ => None
  end.

(** ** Sample data *)

Definition empty_world : World := mkWorld [] [] ∅ 0 [] ∅ [] [] [].

Definition review_config : StartJobRequest :=
  {| batch_size := None; owner_filter := None; auto_approve := false |}.

(** A store holding one job, just created. *)
Definition world_created : World :=
  (create_job "job-1" review_config empty_world).2.

Definition checkpoint_updates : Dict :=
  {[ "status" := VStr "awaiting_approval";
     "pending_approval" :=
       VDict {[ "stage" := VStr "salesforce_update";
                "total_updates" := VInt 1;
                "message" := VStr "Ready to update 1 contacts in Salesforce" ]} ]}.

(** The same job, stopped at an approval checkpoint. *)
Definition world_awaiting : World :=
  (update_job "job-1" checkpoint_updates world_created).2.

(** ** The approval invariant *)

Definition nonnull (v : Value) : bool :=
  match v with
  | VNone => false
  | _ => true
  end.

(** [status == awaiting_approval] implies [pending_approval] is not null. *)
Definition gate_ok (job : Dict) : bool :=
  negb (awaiting job) || nonnull (get job "pending_approval").

(** Updates that cannot break [gate_ok]: they set [pending_approval] to a
    value that is not null, or leave it alone and do not set the status to
    awaiting approval. *)
Definition gate_safe (updates : Dict) : bool :=
  match updates !! "pending_approval" with
  | Some v => nonnull v
  | None =>
      match updates !! "status" with
      | Some s => negb (is_str s "awaiting_approval")
      | None => true
      end
  end.

(** Every snapshot ever committed and every record of the store satisfies
    [gate_ok]. *)
Definition gate_inv (w : World) : Prop :=
  Forall (λ e, gate_ok e.2 = true) (history w) ∧ Forall (λ j, gate_ok j = true) (objs w).

(** The job is registered and the store is well formed. *)
Definition registered (job_id : string) (w : World) : Prop :=
  wf w ∧ is_Some (od_get job_id (jobs w)).

(** Two records of the same person, and the pair Claude reports. *)
Definition contact_a : Contact :=
  {[ "Id" := FStr "003A"; "FirstName" := FStr "Ben"; "LastName" := FStr "Fry";
     "Phone" := FStr "555-0100" ]}.
Definition contact_b : Contact :=
  {[ "Id" := FStr "003B"; "FirstName" := FStr "Benjamin"; "LastName" := FStr "Fry" ]}.
Definition reported_pair : Dict :=
  {[ "contact_id_1" := VStr "003A"; "contact_id_2" := VStr "003B";
     "confidence" := VStr "high"; "reasoning" := VStr "same person" ]}.

(** A sink that accepts every request. *)
Definition accepts_all : Dict → Dict := λ _, {[ "success" := VBool true ]}.

(** A sink that refuses the requests whose record id is listed. *)
Definition refuses (bad : list string) : Dict → Dict := λ u,
  match u !! "Id" with
  | Some (VStr i) =>
      if bool_decide (i ∈ bad)
      then {[ "success" := VBool false; "errors" := VStr "ENTITY_IS_LOCKED" ]}
      else {[ "success" := VBool true ]}
  | _ => {[ "success" := VBool false ]}
  end.

(** Collaborators that find the two records above and one duplicate pair. *)
Definition sample_tools : Tools :=
  {| anthropic_client := Ok ();
     make_output_dir := Ok ();
     connect_to_salesforce :=
       {| conn_status := "success";
          conn_message := "Connected to Salesforce successfully";
          connection := Some (per_request_sink accepts_all) |};
     extract_contacts := λ _ _,
       Ok {| ex_status := "success"; ex_message := "";
             total_contacts := 2; owner_count := 1;
             contacts_by_owner := [("005X", [contact_a; contact_b])];
             all_contacts := [contact_a; contact_b] |};
     extract_email_activities := λ _, Ok (VDict ∅);
     validate_emails := λ _ _, Ok {| total_processed := 2; vr_updates := [] |};
     detect_duplicates_for_owner := λ _ _, Ok [reported_pair];
     generate_reports := λ _ _, Ok (VDict ∅) |}.

(** Collaborators with Salesforce unreachable. *)
Definition offline_tools : Tools :=
  {| anthropic_client := Ok ();
     make_output_dir := Ok ();
     connect_to_salesforce :=
       {| conn_status := "error";
          conn_message := "Connection failed: timed out";
          connection := None |};
     extract_contacts := λ _ _, Raise (RuntimeError "not connected");
     extract_email_activities := λ _, Raise (RuntimeError "not connected");
     validate_emails := λ _ _, Raise (RuntimeError "not connected");
     detect_duplicates_for_owner := λ _ _, Raise (RuntimeError "not connected");
     generate_reports := λ _ _, Raise (RuntimeError "not connected") |}.

Definition decision (job_id : string) (approved : bool) : ApprovalRequest :=
  {| ar_job_id := job_id; approved := approved; rejected_pairs := None |}.

(** The store with one job created and a decision that will be posted
    three seconds later. *)
Definition world_with_decision (approved : bool) : World :=
  set_inbox [(3, ReqApprove (decision "job-1" approved))] world_created.

(** [job["status"]] and [job["results"]["status"]] of a stored job *)
Definition stored_status (w : World) (job_id : string) : option Value :=
  job_of w job_id ≫= λ j, j !! "status".
Definition stored_result_status (w : World) (job_id : string) : option Value :=
  job_of w job_id ≫= λ j,
    match j !! "results" with
    | Some (VDict r) => r !! "status"
    | _ => None
    end.

(** Requests for the records with the given ids. *)
Definition requests_for (ids : list string) : list Dict :=
  (λ i, {[ "Id" := VStr i; "Email_Status__c" := VStr "Unknown" ]} : Dict) <$> ids.

Definition eleven_ids : list string :=
  ["003A"; "003B"; "003C"; "003D"; "003E"; "003F"; "003G"; "003H"; "003I";
   "003J"; "003K"].

(** [len(metrics["errors"])] after the update phase has run on [updates]
    and recorded its result in the initial metrics. *)
Definition errors_after_update (outcome : Dict → Dict) (updates : list Dict) : option Z :=
  match update_salesforce_contacts (Some (per_request_sink outcome)) updates empty_world with
  | (Ok update_result, _) =>
      match record_update (initial_metrics (VStr "0")) update_result with
      | Ok metrics => errors_recorded metrics
      | Raise _ => None
      end
  | (Raise _, _) => None
  end.

(** The marking of the sample pair. *)
Definition sample_contacts : gmap Field Contact :=
  {[ FStr "003A" := contact_a; FStr "003B" := contact_b ]}.


(** Enough fuel for the polling loop: one turn, and one more for every two
    seconds left. *)
Definition fueled (fuel : nat) (timeout start_time : Z) (w : World) : Prop :=
  (0 < fuel)%nat ∧ timeout - (time w - start_time) ≤ 2 * (Z.of_nat fuel - 1).

(** The operation [m] keeps the property [P] of the world, whether it
    returns or raises. *)
Definition pres (P : World → Prop) {A} (m : M A) : Prop :=
  ∀ w, P w → P (m w).2.

Definition sample_marking : MarkingResult :=
  match traced_duplicate_marking "2025-01-01" [reported_pair] sample_contacts with
  | Ok r => r
  | Raise _ =>
      {| mr_status := ""; total_updates := 0; duplicate_groups := 0;
         mr_updates := []; decisions := [] |}
  end.

Definition sample_decision : Dict := default ∅ (head (decisions sample_marking)).

(** * Running the monad *)

Lemma run_bind {A B} (m : M A) (f : A → M B) w :
  (m ≫= f) w =
  match m w with
  | (Ok a, w') => f a w'
  | (Raise e, w') => (Raise e, w')
  end.
Proof. reflexivity. Qed.

Lemma run_bind_ok {A B} (m : M A) (f : A → M B) w a w' :
  m w = (Ok a, w') → (m ≫= f) w = f a w'.
Proof. intros H. by rewrite run_bind, H. Qed.

Lemma run_bind_raise {A B} (m : M A) (f : A → M B) w e w' :
  m w = (Raise e, w') → (m ≫= f) w = (Raise e, w').
Proof. intros H. by rewrite run_bind, H. Qed.

Lemma run_try_ok {A} (m : M A) h w a w' :
  m w = (Ok a, w') → try_except m h w = (Ok a, w').
Proof. intros H. unfold try_except. by rewrite H. Qed.

Lemma run_try_raise {A} (m : M A) h w e w' :
  m w = (Raise e, w') → try_except m h w = h e w'.
Proof. intros H. unfold try_except. by rewrite H. Qed.

(** * Duplicate marking *)

Lemma suggested_actions_cases c1 c2 :
  let '(s1, s2) := action_scores c1 c2 in
  let '(a1, a2) := suggested_actions c1 c2 in
  (s1 < s2 → a1 = "Delete" ∧ a2 = "Keep - Not a duplicate") ∧
  (s2 < s1 → a1 = "Keep - Not a duplicate" ∧ a2 = "Delete") ∧
  (s1 = s2 → a1 = "Merge into other record" ∧ a2 = "Merge into other record") ∧
  ¬ (a1 = "Delete" ∧ a2 = "Delete").
Proof.
  unfold suggested_actions.
  destruct (action_scores c1 c2) as [s1 s2].
  destruct (bool_decide (s1 < s2)) eqn:E1;
    [apply bool_decide_eq_true in E1 | apply bool_decide_eq_false in E1].
  - repeat split; try lia. intros [_ ?]; discriminate.
  - destruct (bool_decide (s2 < s1)) eqn:E2;
      [apply bool_decide_eq_true in E2 | apply bool_decide_eq_false in E2].
    + repeat split; try lia. intros [? _]; discriminate.
    + repeat split; try lia. intros [? _]; discriminate.
Qed.

Lemma hashable_key v : hashable v = true → ∃ k, key_of v = Ok k.
Proof. destruct v; simpl; try discriminate; eauto. Qed.

Lemma unhashable_key v : hashable v = false → ∃ e, key_of v = Raise e.
Proof. destruct v; simpl; try discriminate; eauto. Qed.

Lemma lookup_contact_hashable cd v :
  hashable v = true → ∃ c, lookup_contact cd v = Ok c.
Proof.
  intros [k Hk]%hashable_key. unfold lookup_contact. rewrite Hk. simpl. eauto.
Qed.

Lemma lookup_contact_unhashable cd v :
  hashable v = false → ∃ e, lookup_contact cd v = Raise e.
Proof.
  intros [e He]%unhashable_key. unfold lookup_contact. rewrite He. simpl. eauto.
Qed.

Lemma pair_resolves_eq cd p id1 id2 o1 o2 :
  p !! "contact_id_1" = Some id1 → p !! "contact_id_2" = Some id2 →
  lookup_contact cd id1 = Ok o1 → lookup_contact cd id2 = Ok o2 →
  pair_resolves cd p = negb (falsy_contact o1) && negb (falsy_contact o2).
Proof.
  intros E1 E2 L1 L2. unfold pair_resolves, resolves, get.
  rewrite E1, E2. simpl. by rewrite L1, L2.
Qed.

(** One turn of the marking loop, by cases on the pair: a pair is followed
    up to the point where [mark_pair] decides. *)
Lemma mark_pair_cases today cd p :
  match mark_pair today cd p with
  | Ok (Some (us, d)) =>
      ∃ id1 id2 c1 c2,
        p !! "contact_id_1" = Some id1 ∧ p !! "contact_id_2" = Some id2 ∧
        lookup_contact cd id1 = Ok (Some c1) ∧
        lookup_contact cd id2 = Ok (Some c2) ∧
        pair_resolves cd p = true ∧
        length us = 2%nat ∧
        decision_action d "contact_1" = Some (VStr (suggested_actions c1 c2).1) ∧
        decision_action d "contact_2" = Some (VStr (suggested_actions c1 c2).2)
  | Ok None => pair_resolves cd p = false
  | Raise _ => well_formed_pair cd p = false
  end.
Proof.
  unfold mark_pair, getitem, well_formed_pair, has_key.
  destruct (p !! "contact_id_1") as [id1|] eqn:E1; [|reflexivity].
  destruct (p !! "contact_id_2") as [id2|] eqn:E2; [|reflexivity].
  cbn [mbind Res_bind andb]. unfold get at 1 2. rewrite E1, E2. cbn [from_option id].
  destruct (hashable id1) eqn:H1.
  2:{ destruct (lookup_contact_unhashable cd _ H1) as [e ->]. reflexivity. }
  destruct (lookup_contact_hashable cd _ H1) as [o1 L1]. rewrite L1.
  cbn [mbind Res_bind andb].
  destruct (hashable id2) eqn:H2.
  2:{ destruct (lookup_contact_unhashable cd _ H2) as [e ->]. reflexivity. }
  destruct (lookup_contact_hashable cd _ H2) as [o2 L2]. rewrite L2.
  cbn [mbind Res_bind andb].
  rewrite (pair_resolves_eq _ _ _ _ _ _ E1 E2 L1 L2).
  destruct o1 as [c1|]; [|reflexivity].
  destruct o2 as [c2|]; [|apply andb_false_r].
  destruct (falsy_contact (Some c1)) eqn:F1; [reflexivity|].
  destruct (falsy_contact (Some c2)) eqn:F2; [reflexivity|].
  cbn [orb negb andb].
  destruct (suggested_actions c1 c2) as [a1 a2] eqn:SA.
  destruct (p !! "confidence"); [|reflexivity].
  destruct (p !! "reasoning"); [|reflexivity].
  cbn [mbind Res_bind mret Res_ret].
  exists id1, id2, c1, c2.
  unfold decision_action, decision_side.
  split_and!; try done; simplify_map_eq; by rewrite SA.
Qed.

Lemma mark_pair_some today cd p us d :
  mark_pair today cd p = Ok (Some (us, d)) →
  ∃ id1 id2 c1 c2,
    p !! "contact_id_1" = Some id1 ∧ p !! "contact_id_2" = Some id2 ∧
    lookup_contact cd id1 = Ok (Some c1) ∧ lookup_contact cd id2 = Ok (Some c2) ∧
    pair_resolves cd p = true ∧
    length us = 2%nat ∧
    decision_action d "contact_1" = Some (VStr (suggested_actions c1 c2).1) ∧
    decision_action d "contact_2" = Some (VStr (suggested_actions c1 c2).2).
Proof. intros H. pose proof (mark_pair_cases today cd p) as C. by rewrite H in C. Qed.

Lemma mark_pair_none today cd p :
  mark_pair today cd p = Ok None → pair_resolves cd p = false.
Proof. intros H. pose proof (mark_pair_cases today cd p) as C. by rewrite H in C. Qed.

Lemma mark_pair_raise today cd p e :
  mark_pair today cd p = Raise e → well_formed_pair cd p = false.
Proof. intros H. pose proof (mark_pair_cases today cd p) as C. by rewrite H in C. Qed.

Lemma marking_loop_ok today cd pairs us ds us' ds' :
  marking_loop today cd pairs us ds = Ok (us', ds') →
  ∃ new_us new_ds,
    us' = us ++ new_us ∧ ds' = ds ++ new_ds ∧
    length new_us = (2 * length new_ds)%nat ∧
    length new_ds = length (List.filter (pair_resolves cd) pairs) ∧
    Forall (λ d, ∃ p us0, p ∈ pairs ∧ mark_pair today cd p = Ok (Some (us0, d))) new_ds.
Proof.
  revert us ds. induction pairs as [|p rest IH]; intros us ds H; simpl in H.
  - injection H as <- <-. exists [], []. by rewrite !app_nil_r.
  - destruct (mark_pair today cd p) as [[[us0 d]|]|] eqn:E;
      cbn [mbind Res_bind] in H; [| |done].
    + destruct (IH _ _ H) as (nu & nd & -> & -> & Hlen & Hcnt & Hall).
      destruct (mark_pair_some _ _ _ _ _ E) as (?&?&?&?&_&_&_&_&Hres&Hus&_).
      exists (us0 ++ nu), (d :: nd). rewrite <- !app_assoc. simpl.
      rewrite Hres. simpl. rewrite length_app, Hus, Hlen, Hcnt.
      repeat split; try done; try lia.
      constructor.
      * exists p, us0. split; [left|done].
      * eapply Forall_impl; [exact Hall|].
        intros d' (p' & u' & ? & ?). exists p', u'. split; [by right|done].
    + destruct (IH _ _ H) as (nu & nd & -> & -> & Hlen & Hcnt & Hall).
      exists nu, nd. simpl. rewrite (mark_pair_none _ _ _ E).
      repeat split; try done.
      eapply Forall_impl; [exact Hall|].
      intros d' (p' & u' & ? & ?). exists p', u'. split; [by right|done].
Qed.

Lemma marking_loop_raise today cd pairs us ds e :
  marking_loop today cd pairs us ds = Raise e →
  forallb (well_formed_pair cd) pairs = false.
Proof.
  revert us ds. induction pairs as [|p rest IH]; intros us ds H; simpl in H; [done|].
  simpl. destruct (mark_pair today cd p) as [[[us0 d]|]|] eqn:E;
    cbn [mbind Res_bind] in H.
  - rewrite (IH _ _ H). apply andb_false_r.
  - rewrite (IH _ _ H). apply andb_false_r.
  - by rewrite (mark_pair_raise _ _ _ _ E).
Qed.


(** C10 *)
Theorem marking_two_updates_per_group today duplicate_pairs contacts_dict :
  match traced_duplicate_marking today duplicate_pairs contacts_dict with
  | Ok r =>
      total_updates r = 2 * duplicate_groups r ∧
      duplicate_groups r = len (List.filter (pair_resolves contacts_dict) duplicate_pairs) ∧
      total_updates r = len (mr_updates r) ∧
      duplicate_groups r = len (decisions r)
  | Raise _ => forallb (well_formed_pair contacts_dict) duplicate_pairs = false
  end.
Proof.
  unfold traced_duplicate_marking.
  destruct (marking_loop today contacts_dict duplicate_pairs [] [])
    as [[us ds]|] eqn:E; cbn [mbind Res_bind mret Res_ret].
  - destruct (marking_loop_ok _ _ _ _ _ _ _ E) as (nu & nd & -> & -> & Hlen & Hcnt & _).
    simpl. unfold len. rewrite Hlen, Hcnt. repeat split; lia.
  - eapply marking_loop_raise, E.
Qed.

(** * The Salesforce update *)

Lemma len_app {A} (l1 l2 : list A) : len (l1 ++ l2) = len l1 + len l2.
Proof. unfold len. rewrite length_app. lia. Qed.

Lemma count_failed_app outcome l1 l2 :
  count_failed outcome (l1 ++ l2) = count_failed outcome l1 + count_failed outcome l2.
Proof. unfold count_failed. by rewrite List.filter_app, len_app. Qed.

Lemma count_failed_bounds outcome l : 0 ≤ count_failed outcome l ≤ len l.
Proof.
  unfold count_failed, len. pose proof (List.filter_length_le (λ u, negb (succeeded (outcome u))) l).
  lia.
Qed.

Lemma len_cons {A} (x : A) (l : list A) : len (x :: l) = 1 + len l.
Proof. unfold len. simpl. lia. Qed.

Lemma count_failed_cons outcome u l :
  count_failed outcome (u :: l) =
  (if succeeded (outcome u) then 0 else 1) + count_failed outcome l.
Proof.
  unfold count_failed. simpl. destruct (succeeded (outcome u)); simpl; [done|].
  by rewrite len_cons.
Qed.

Lemma tally_results_success batch k result rest t ok :
  result !! "success" = Some ok → truthy ok = true →
  tally_results batch k (result :: rest) t =
  tally_results batch (S k) rest
    {| success_count := success_count t + 1; errors := errors t |}.
Proof. intros H1 H2. simpl. unfold getitem. by rewrite H1, H2. Qed.

Lemma tally_results_failure batch k result rest t ok request contact_id :
  result !! "success" = Some ok → truthy ok = false →
  batch !! k = Some request → request !! "Id" = Some contact_id →
  tally_results batch k (result :: rest) t =
  tally_results batch (S k) rest
    {| success_count := success_count t;
       errors := errors t ++
         [VDict {[ "contact_id" := contact_id;
                   "error" := get_or result "errors" (VStr "Unknown error") ]}] |}.
Proof. intros H1 H2 H3 H4. simpl. unfold getitem. by rewrite H1, H2, H3, H4. Qed.

(** The inner loop over one batch whose results come request by request. *)
Lemma tally_results_per_request outcome batch rest :
  ∀ k t,
    drop k batch = rest →
    Forall (answerable outcome) rest →
    ∃ errs,
      tally_results batch k (outcome <$> rest) t =
        ({| success_count := success_count t + (len rest - count_failed outcome rest);
            errors := errors t ++ errs |}, None)
      ∧ len errs = count_failed outcome rest.
Proof.
  induction rest as [|u rest IH]; intros k t Hdrop Hall.
  - exists []. rewrite app_nil_r. split; [|done].
    destruct t; simpl. do 2 f_equal. unfold count_failed, len. simpl. lia.
  - apply Forall_cons in Hall as [[[cid Hid] [ok Hok]] Hall].
    assert (batch !! k = Some u) as Hk.
    { rewrite <- (Nat.add_0_r k), <- lookup_drop, Hdrop. done. }
    assert (drop (S k) batch = rest) as Hdrop'.
    { erewrite drop_S in Hdrop by exact Hk. by injection Hdrop. }
    rewrite fmap_cons, count_failed_cons, len_cons.
    unfold succeeded, get. rewrite Hok. cbn [from_option id].
    destruct (truthy ok) eqn:Eok.
    + rewrite (tally_results_success _ _ _ _ _ _ Hok Eok).
      destruct (IH (S k) {| success_count := success_count t + 1; errors := errors t |}
                  Hdrop' Hall) as (errs & -> & Hlen).
      exists errs. cbn [success_count errors]. split; [|lia].
      do 2 f_equal. lia.
    + rewrite (tally_results_failure _ _ _ _ _ _ _ _ Hok Eok Hk Hid).
      match goal with |- context [tally_results _ _ _ ?t'] =>
        destruct (IH (S k) t' Hdrop' Hall) as (errs & -> & Hlen) end.
      cbn [success_count errors]. eexists (_ :: errs). rewrite <- app_assoc.
      split; [|rewrite len_cons; lia].
      do 2 f_equal. lia.
Qed.

Lemma take_add_drop {A} (l : list A) n m :
  take (n + m) l = take n l ++ take m (drop n l).
Proof.
  revert l. induction n as [|n IH]; intros [|x l]; simpl; try done.
  - by rewrite take_nil.
  - by rewrite IH.
Qed.

Lemma update_batches_cons sf updates bs i rest t w :
  update_batches sf updates bs (i :: rest) t w =
  let batch := take (Z.to_nat bs) (drop (Z.to_nat i) updates) in
  match sf_bulk_update sf batch with
  | Raise e => (Ok (t, Some e), log_sf_call batch w)
  | Ok results =>
      match tally_results batch 0 results t with
      | (t', Some e) => (Ok (t', Some e), log_sf_call batch w)
      | (t', None) => update_batches sf updates bs rest t' (log_sf_call batch w)
      end
  end.
Proof.
  cbn [update_batches]. rewrite run_bind. unfold modify at 1. cbv zeta.
  destruct (sf_bulk_update sf _) as [results|e]; [|done].
  by destruct (tally_results _ 0 results t) as [t' [e|]].
Qed.

(** The outer loop: [n] batches from batch number [k0] on cover the next
    [n * batch_size] requests, and each is handed to the sink. *)
Lemma update_batches_per_request outcome updates bs :
  (0 < bs)%nat →
  Forall (answerable outcome) updates →
  ∀ n k0 t w,
    let chunk := take (n * bs) (drop (k0 * bs) updates) in
    ∃ errs calls w',
      update_batches (Some (per_request_sink outcome)) updates (Z.of_nat bs)
        ((λ k : nat, Z.of_nat k * Z.of_nat bs) <$> seq k0 n) t w =
        (Ok ({| success_count := success_count t + (len chunk - count_failed outcome chunk);
                errors := errors t ++ errs |}, None), w')
      ∧ len errs = count_failed outcome chunk
      ∧ sf_calls w' = sf_calls w ++ calls ∧ concat calls = chunk.
Proof.
  intros Hbs Hall. induction n as [|n IH]; intros k0 t w chunk.
  - exists [], [], w. subst chunk. simpl. rewrite !app_nil_r. split_and!; try done.
    destruct t; simpl. unfold mret, M_ret. rewrite take_0. do 4 f_equal.
    unfold count_failed, len. simpl. lia.
  - rewrite <- cons_seq, fmap_cons, update_batches_cons. cbv zeta.
    replace (Z.to_nat (Z.of_nat k0 * Z.of_nat bs)) with (k0 * bs)%nat by lia.
    rewrite Nat2Z.id.
    set (batch := take bs (drop (k0 * bs) updates)).
    change (sf_bulk_update (Some (per_request_sink outcome)) batch)
      with (Ok (outcome <$> batch) : Res (list Dict)).
    assert (Forall (answerable outcome) batch) as Hb.
    { subst batch. apply Forall_take, Forall_drop, Hall. }
    destruct (tally_results_per_request outcome batch batch 0 t eq_refl Hb)
      as (errs1 & -> & Hlen1).
    match goal with |- context [update_batches _ _ _ _ ?t' ?w'] =>
      destruct (IH (S k0) t' w') as (errs2 & calls & w2 & -> & Hlen2 & Hcalls & Hcat) end.
    exists (errs1 ++ errs2), (batch :: calls), w2. cbn [success_count errors].
    assert (chunk = batch ++ take (n * bs) (drop (S k0 * bs) updates)) as ->.
    { subst chunk batch.
      replace (S n * bs)%nat with (bs + n * bs)%nat by lia.
      rewrite take_add_drop, drop_drop. do 3 f_equal. lia. }
    rewrite count_failed_app, !len_app, <- app_assoc. split_and!.
    + do 4 f_equal. lia.
    + lia.
    + rewrite Hcalls. simpl. by rewrite <- app_assoc.
    + simpl. by rewrite Hcat.
Qed.

Lemma range_covers (L bs : Z) :
  0 ≤ L → 0 < bs → L ≤ Z.of_nat (Z.to_nat ((L + bs - 1) / bs)) * bs.
Proof.
  intros HL Hbs.
  assert (0 ≤ (L + bs - 1) / bs) by (apply Z.div_pos; lia).
  pose proof (Z.mul_succ_div_gt (L + bs - 1) bs Hbs). lia.
Qed.

Lemma py_range_pos stop step :
  0 < step →
  py_range stop step =
  Ok ((λ k : nat, Z.of_nat k * step) <$> seq 0 (Z.to_nat ((stop + step - 1) / step))).
Proof.
  intros H. unfold py_range.
  destruct (decide (step = 0)); [lia|]. destruct (decide (step < 0)); [lia|]. done.
Qed.

(** The update as a whole, for any positive batch size. *)
Lemma traced_update_per_request outcome updates bs w :
  (0 < bs)%nat →
  Forall (answerable outcome) updates →
  ∃ update_result errs calls w',
    traced_salesforce_update (Some (per_request_sink outcome)) updates (Z.of_nat bs) w
      = (Ok update_result, w')
    ∧ ur_success_count update_result = len updates - count_failed outcome updates
    ∧ ur_error_count update_result = count_failed outcome updates
    ∧ len errs = count_failed outcome updates
    ∧ (updates ≠ [] → ur_errors update_result = Some (take 10 errs))
    ∧ sf_calls w' = sf_calls w ++ calls ∧ concat calls = updates.
Proof.
  intros Hbs Hall. unfold traced_salesforce_update.
  destruct updates as [|u us] eqn:Eu.
  { simpl. eexists _, [], [], w. rewrite app_nil_r. split_and!; done. }
  rewrite <- Eu in *. replace (nonempty updates) with true by by rewrite Eu.
  cbn [negb]. rewrite py_range_pos by lia.
  set (n := Z.to_nat ((len updates + Z.of_nat bs - 1) / Z.of_nat bs)).
  rewrite run_bind.
  destruct (update_batches_per_request outcome updates bs Hbs Hall n 0
              {| success_count := 0; errors := [] |} w)
    as (errs & calls & w' & -> & Hlen & Hcalls & Hcat).
  assert (take (n * bs) (drop (0 * bs) updates) = updates) as Hchunk.
  { simpl. apply take_ge. subst n. unfold len.
    pose proof (range_covers (Z.of_nat (length updates)) (Z.of_nat bs)). lia. }
  rewrite Hchunk in *. cbn [success_count errors app].
  eexists _, errs, calls, w'. split; [reflexivity|]. cbn.
  split_and!; try done; lia.
Qed.


(** * The broadcaster *)

Lemma list_remove_middle x pre rest :
  x ∉ pre → list_remove x (pre ++ x :: rest) = Ok (pre ++ rest).
Proof.
  induction pre as [|y pre IH]; intros Hx; simpl.
  - by rewrite decide_True.
  - apply not_elem_of_cons in Hx as [Hxy Hx].
    rewrite decide_False by done. by rewrite IH.
Qed.

Lemma send_text_open ws message w :
  ws ∉ closed w → send_text ws message w = (Ok (), log_sent ws message w).
Proof.
  intros H. unfold send_text. rewrite run_bind. unfold gets.
  by rewrite decide_False.
Qed.

Lemma send_text_closed ws message w :
  ws ∈ closed w → ∃ e, send_text ws message w = (Raise e, w).
Proof.
  intros H. unfold send_text. rewrite run_bind. unfold gets.
  rewrite decide_True by done. by eexists.
Qed.

Lemma remove_websocket_present job_id ws pre rest w :
  websocket_clients w !! job_id = Some (pre ++ ws :: rest) → ws ∉ pre →
  remove_websocket job_id ws w =
  (Ok (), set_clients <[job_id := pre ++ rest]> w).
Proof.
  intros Hcl Hws. unfold remove_websocket. rewrite run_bind. unfold gets.
  rewrite Hcl. unfold try_except. rewrite run_bind. unfold lift.
  by rewrite (list_remove_middle _ _ _ Hws).
Qed.

(** The delivery loop: the registered list is the sinks already served,
    all alive, followed by those still to serve. *)
Lemma delivery_loop job_id message rest :
  ∀ pre w,
    websocket_clients w !! job_id = Some (pre ++ rest) →
    Forall (λ ws, ws ∉ closed w) pre →
    let live := filter (λ ws, ws ∉ closed w) rest in
    ∃ w',
      for_each rest (λ websocket,
        try_except (send_text websocket message)
                   (λ e, remove_websocket job_id websocket)) w = (Ok (), w')
      ∧ websocket_clients w' = <[job_id := pre ++ live]> (websocket_clients w)
      ∧ sent w' = sent w ++ ((λ ws, (ws, message)) <$> live)
      ∧ same_jobs w w'.
Proof.
  induction rest as [|x rest IH]; intros pre w Hcl Hpre live; subst live.
  - exists w. rewrite !app_nil_r in *. split_and!; try done.
    by rewrite insert_id.
  - cbn [for_each]. rewrite run_bind.
    destruct (decide (x ∈ closed w)) as [Hx|Hx].
    + destruct (send_text_closed x message w Hx) as [e He].
      rewrite (run_try_raise _ _ _ _ _ He).
      assert (x ∉ pre) as Hxpre.
      { intros Hin. rewrite Forall_forall in Hpre. by apply (Hpre x Hin). }
      rewrite (remove_websocket_present _ _ _ _ _ Hcl Hxpre).
      set (w1 := set_clients <[job_id := pre ++ rest]> w).
      destruct (IH pre w1) as (w' & -> & Hc & Hs & Hj).
      { subst w1. simpl. by rewrite lookup_insert_eq. }
      { done. }
      exists w'. rewrite filter_cons_False by (by intros ?).
      split_and!; try done.
      subst w1. simpl in Hc. by rewrite Hc, insert_insert_eq.
    + rewrite (run_try_ok _ _ _ _ _ (send_text_open x message w Hx)).
      set (w1 := log_sent x message w).
      destruct (IH (pre ++ [x]) w1) as (w' & -> & Hc & Hs & Hj).
      { subst w1. simpl. by rewrite <- app_assoc. }
      { apply Forall_app. split; [done|]. by constructor. }
      exists w'. rewrite filter_cons_True by done.
      split_and!; try done.
      * rewrite Hc. subst w1. simpl. by rewrite <- app_assoc.
      * rewrite Hs. subst w1. simpl. by rewrite <- app_assoc.
Qed.

(** C8: a publish never raises; every subscribed sink that is alive gets
    the snapshot, in subscription order; every sink whose delivery fails
    is removed from the subscribers of the job; nothing else changes. *)
Theorem broadcast_detaches_failing_sinks job_id data w :
  ∃ w',
    broadcast_update job_id data w = (Ok (), w')
    ∧ same_jobs w w'
    ∧ match websocket_clients w !! job_id with
      | None => websocket_clients w' = websocket_clients w ∧ sent w' = sent w
      | Some clients =>
          let live := filter (λ ws, ws ∉ closed w) clients in
          websocket_clients w' = <[job_id := live]> (websocket_clients w)
          ∧ sent w' = sent w ++
              ((λ ws, (ws, job_update_message job_id (deref w data))) <$> live)
      end.
Proof.
  unfold broadcast_update. rewrite run_bind. unfold gets at 1.
  destruct (websocket_clients w !! job_id) as [clients|] eqn:Hcl.
  - rewrite run_bind. unfold gets at 1.
    destruct (delivery_loop job_id (job_update_message job_id (deref w data))
                clients [] w Hcl) as (w' & -> & Hc & Hs & Hj); [done|].
    exists w'. by split_and!.
  - exists w. by split_and!.
Qed.

(** * The job store *)

Lemma od_get_elem {V} k (d : list (string * V)) v :
  od_get k d = Some v → (k, v) ∈ d.
Proof.
  induction d as [|[k' v'] d IH]; simpl; [done|].
  destruct (decide (k = k')) as [->|]; intros H.
  - injection H as ->. left.
  - right. by apply IH.
Qed.

Lemma od_get_set {V} k k' (v : V) d :
  od_get k (od_set k' v d) = if decide (k = k') then Some v else od_get k d.
Proof.
  induction d as [|[k0 v0] d IH]; simpl.
  - by destruct (decide (k = k')).
  - destruct (decide (k' = k0)) as [->|Hne]; simpl.
    + by destruct (decide (k = k0)).
    + destruct (decide (k = k0)) as [->|]; [by rewrite decide_False|done].
Qed.

Lemma wf_ref w k r : wf w → od_get k (jobs w) = Some r → (r < length (objs w))%nat.
Proof.
  intros Hwf Hk. apply od_get_elem in Hk. unfold wf in Hwf.
  rewrite Forall_forall in Hwf. exact (Hwf _ Hk).
Qed.

Lemma size_lookup (d : Dict) k v : d !! k = Some v → Nat.eqb (size d) 0 = false.
Proof.
  intros H. apply Nat.eqb_neq. intros Hs. apply map_size_empty_iff in Hs.
  by rewrite Hs in H.
Qed.

Lemma deref_lookup w r j : objs w !! r = Some j → deref w r = j.
Proof. intros H. unfold deref. by rewrite H. Qed.

(** [update_job] on a registered job: the record is merged in place, the
    snapshot is logged and published; the call returns. *)
Lemma update_job_registered job_id updates w r :
  od_get job_id (jobs w) = Some r →
  let job := updated updates (deref w r) (time w) in
  ∃ w',
    update_job job_id updates w = (Ok (), w')
    ∧ objs w' = <[r := job]> (objs w)
    ∧ jobs w' = jobs w
    ∧ history w' = history w ++ [(job_id, job)]
    ∧ time w' = time w ∧ inbox w' = inbox w ∧ closed w' = closed w
    ∧ sf_calls w' = sf_calls w.
Proof.
  intros Hr job. unfold update_job. rewrite run_bind. unfold get_job, gets at 1.
  rewrite Hr. rewrite run_bind. unfold now, gets at 1. rewrite run_bind.
  unfold modify at 1.
  match goal with |- context [broadcast_update job_id r ?w1] =>
    destruct (broadcast_detaches_failing_sinks job_id r w1)
      as (w' & -> & (Ho & Hj & Ht & Hi & Hc & Hh & Hs) & _) end.
  exists w'. simpl in *. by split_and!.
Qed.

Lemma update_job_missing job_id updates w :
  od_get job_id (jobs w) = None →
  update_job job_id updates w =
  (Raise (ValueError ("Job " +:+ job_id +:+ " not found")), w).
Proof.
  intros Hr. unfold update_job. rewrite run_bind. unfold get_job, gets at 1.
  by rewrite Hr.
Qed.

(** * The approval request *)

Lemma approve_decision_rejected request w r j status :
  od_get (ar_job_id request) (jobs w) = Some r →
  objs w !! r = Some j →
  j !! "status" = Some status →
  is_str status "awaiting_approval" = false →
  approve_decision request w =
  (Raise (HTTPException 400
     ("Job is not awaiting approval (current status: " +:+ str_value status +:+ ")")), w).
Proof.
  intros Hr Hj Hs Hst. unfold approve_decision. rewrite run_bind.
  unfold get_job, gets at 1. rewrite Hr. rewrite run_bind. unfold gets at 1.
  rewrite (deref_lookup _ _ _ Hj). cbn [truthy]. rewrite (size_lookup _ _ _ Hs).
  cbn [negb]. rewrite run_bind. unfold lift, getitem. rewrite Hs, Hst. done.
Qed.


(** * Listing the jobs *)

Lemma create_job_run job_id config w :
  create_job job_id config w =
  (Ok job_id,
   log_history job_id
     (new_job job_id config (VStr (isoformat (time w))) (VStr (isoformat (time w))))
     (set_clients <[job_id := []]>
        (set_jobs (od_set job_id (length (objs w)))
           (set_objs (λ o, o ++ [new_job job_id config (VStr (isoformat (time w)))
                                   (VStr (isoformat (time w)))]) w)))).
Proof. reflexivity. Qed.

(** C7, as amended: [list_jobs] returns a new list of the references held
    by the store, without changing the store. The list keeps showing the
    same jobs whatever is created later, and a record seen through it is
    the live one: after an update of a job the list shows the updated
    record at that job's place and the unchanged records elsewhere. *)
Theorem list_jobs_shares_records w :
  wf w →
  list_jobs w = (Ok (jobs w).*2, w)
  ∧ (∀ job_id updates r,
       od_get job_id (jobs w) = Some r →
       ∃ w', update_job job_id updates w = (Ok (), w')
         ∧ ∀ r', r' ∈ (jobs w).*2 →
             deref w' r' =
             if decide (r' = r) then updated updates (deref w r) (time w)
             else deref w r')
  ∧ (∀ job_id config,
       view (create_job job_id config w).2 (jobs w).*2 = view w (jobs w).*2).
Proof.
  intros Hwf. split_and!.
  - reflexivity.
  - intros job_id updates r Hr.
    destruct (update_job_registered job_id updates w r Hr)
      as (w' & Hrun & Ho & _).
    exists w'. split; [done|]. intros r' _.
    unfold deref at 1. rewrite Ho.
    pose proof (wf_ref _ _ _ Hwf Hr) as Hlt.
    destruct (decide (r' = r)) as [->|Hne].
    + by rewrite list_lookup_insert_eq.
    + by rewrite list_lookup_insert_ne.
  - intros job_id config. rewrite create_job_run. unfold view.
    apply list_fmap_ext. intros i r' Hi.
    assert (r' < length (objs w))%nat as Hlt.
    { unfold wf in Hwf. rewrite Forall_forall in Hwf.
      apply list_elem_of_lookup_2 in Hi. apply list_elem_of_fmap in Hi as ([k r0] & -> & Hin).
      exact (Hwf _ Hin). }
    unfold deref. simpl. by rewrite lookup_app_l.
Qed.

(** The claim as stated fails: the list returned before an update shows
    the record as it is after the update. *)
Lemma list_jobs_snapshot_changes :
  let refs := [0%nat] in
  let w' := (update_job "job-1" checkpoint_updates world_created).2 in
  list_jobs world_created = (Ok refs, world_created)
  ∧ update_job "job-1" checkpoint_updates world_created = (Ok (), w')
  ∧ view w' refs ≠ view world_created refs.
Proof.
  split_and!.
  - reflexivity.
  - vm_compute. reflexivity.
  - intros H.
    apply (f_equal (λ l, l !! 0%nat ≫= (λ j : Dict, j !! "status"))) in H.
    vm_compute in H. discriminate.
Qed.

(** * Properties of the world kept by every operation *)

Create HintDb pres discriminated.

Section Preservation.
Variable P : World → Prop.

(** [P] survives the elementary changes of the world. *)
Hypothesis P_create : ∀ job_id config w, P w → P (create_job job_id config w).2.
Hypothesis P_commit : ∀ job_id r updates w,
  gate_safe updates = true → od_get job_id (jobs w) = Some r → P w →
  P (log_history job_id (updated updates (deref w r) (time w))
       (set_objs <[r := updated updates (deref w r) (time w)]> w)).
Hypothesis P_clients : ∀ f w, P w → P (set_clients f w).
Hypothesis P_time : ∀ t w, P w → P (set_time t w).
Hypothesis P_inbox : ∀ i w, P w → P (set_inbox i w).
Hypothesis P_closed : ∀ f w, P w → P (set_closed f w).
Hypothesis P_sent : ∀ ws m w, P w → P (log_sent ws m w).
Hypothesis P_sf : ∀ b w, P w → P (log_sf_call b w).

Lemma pres_ret {A} (a : A) : pres P (mret a).
Proof. by intros w. Qed.

Lemma pres_raise {A} e : pres P (raise e : M A).
Proof. by intros w. Qed.

Lemma pres_lift {A} (r : Res A) : pres P (lift r).
Proof. by intros w. Qed.

Lemma pres_gets {A} (f : World → A) : pres P (gets f).
Proof. by intros w. Qed.

Lemma pres_modify f : (∀ w, P w → P (f w)) → pres P (modify f).
Proof. intros H w Hw. by apply H. Qed.

Lemma pres_bind {A B} (m : M A) (f : A → M B) :
  pres P m → (∀ a, pres P (f a)) → pres P (m ≫= f).
Proof.
  intros Hm Hf w Hw. rewrite run_bind. specialize (Hm w Hw).
  destruct (m w) as [[a|e] w']; simpl in *; [by apply Hf|done].
Qed.

Lemma pres_try {A} (m : M A) h :
  pres P m → (∀ e, pres P (h e)) → pres P (try_except m h).
Proof.
  intros Hm Hh w Hw. unfold try_except. specialize (Hm w Hw).
  destruct (m w) as [[a|e] w']; simpl in *; [done|by apply Hh].
Qed.

Lemma pres_for_each {A} (l : list A) body :
  (∀ x, pres P (body x)) → pres P (for_each l body).
Proof.
  intros Hb. induction l as [|x l IH]; simpl.
  - apply pres_ret.
  - apply pres_bind; [apply Hb|]. intros _. apply IH.
Qed.

(** One step of a preservation proof, by the shape of the operation. *)
Ltac pres_step :=
  lazymatch goal with
  | |- pres P (mret _) => apply pres_ret
  | |- pres P (raise _) => apply pres_raise
  | |- pres P (lift _) => apply pres_lift
  | |- pres P (gets _) => apply pres_gets
  | |- pres P (mbind _ _) => apply pres_bind; [|intros ?]
  | |- pres P (try_except _ _) => apply pres_try; [|intros ?]
  | |- pres P (for_each _ _) => apply pres_for_each; intros ?
  | |- pres P (modify _) => apply pres_modify; intros ? ?
  | |- pres P (match ?x with _ => _ end) => destruct x
  end.

Lemma pres_now : pres P now.
Proof. apply pres_gets. Qed.
#[local] Hint Resolve pres_now : pres.

Lemma pres_today : pres P today.
Proof. apply pres_gets. Qed.
#[local] Hint Resolve pres_today : pres.

Lemma pres_create_job job_id config : pres P (create_job job_id config).
Proof. intros w Hw. by apply P_create. Qed.
#[local] Hint Resolve pres_create_job : pres.

Lemma pres_get_job job_id : pres P (get_job job_id).
Proof. apply pres_gets. Qed.
#[local] Hint Resolve pres_get_job : pres.

Lemma pres_add_websocket job_id ws : pres P (add_websocket job_id ws).
Proof. apply pres_modify. intros w Hw. by apply P_clients. Qed.
#[local] Hint Resolve pres_add_websocket : pres.

Lemma pres_remove_websocket job_id ws : pres P (remove_websocket job_id ws).
Proof.
  unfold remove_websocket. repeat pres_step. by apply P_clients.
Qed.
#[local] Hint Resolve pres_remove_websocket : pres.

Lemma pres_send_text ws m : pres P (send_text ws m).
Proof. unfold send_text. repeat pres_step. by apply P_sent. Qed.
#[local] Hint Resolve pres_send_text : pres.

Lemma pres_broadcast_update job_id data : pres P (broadcast_update job_id data).
Proof.
  unfold broadcast_update. repeat pres_step.
  - apply pres_send_text.
  - apply pres_remove_websocket.
Qed.
#[local] Hint Resolve pres_broadcast_update : pres.

Lemma pres_update_job job_id updates :
  gate_safe updates = true → pres P (update_job job_id updates).
Proof.
  intros Hu w Hw. unfold update_job. rewrite run_bind.
  unfold get_job, gets at 1.
  destruct (od_get job_id (jobs w)) as [r|] eqn:Hr; [|done].
  rewrite run_bind. unfold now, gets at 1. rewrite run_bind. unfold modify at 1.
  apply pres_broadcast_update. by apply P_commit.
Qed.
#[local] Hint Resolve pres_update_job : pres.

Lemma pres_update_progress job_id phase step message :
  pres P (update_progress job_id phase step message).
Proof.
  unfold update_progress. repeat pres_step. by apply pres_update_job.
Qed.
#[local] Hint Resolve pres_update_progress : pres.

Lemma pres_start_dedup_job job_id request : pres P (start_dedup_job job_id request).
Proof.
  unfold start_dedup_job. repeat pres_step; auto with pres.
Qed.
#[local] Hint Resolve pres_start_dedup_job : pres.

Lemma pres_approve_decision request : pres P (approve_decision request).
Proof.
  unfold approve_decision. repeat pres_step; auto with pres.
Qed.
#[local] Hint Resolve pres_approve_decision : pres.

Lemma pres_websocket_connect job_id ws : pres P (websocket_connect job_id ws).
Proof.
  unfold websocket_connect. repeat pres_step;
    auto with pres.
Qed.
#[local] Hint Resolve pres_websocket_connect : pres.

Lemma pres_websocket_disconnect job_id ws : pres P (websocket_disconnect job_id ws).
Proof.
  unfold websocket_disconnect. repeat pres_step;
    auto with pres.
Qed.
#[local] Hint Resolve pres_websocket_disconnect : pres.

Lemma pres_handle r : pres P (handle r).
Proof.
  unfold handle. repeat pres_step;
    auto with pres.
Qed.
#[local] Hint Resolve pres_handle : pres.

Lemma pres_sleep secs : pres P (sleep secs).
Proof.
  unfold sleep. repeat pres_step; auto with pres.
Qed.
#[local] Hint Resolve pres_sleep : pres.

Lemma pres_wait_loop fuel job_id timeout start_time :
  pres P (wait_loop fuel job_id timeout start_time).
Proof.
  induction fuel as [|fuel IH]; simpl; repeat pres_step; auto with pres.
Qed.
#[local] Hint Resolve pres_wait_loop : pres.

Lemma pres_wait_for_approval job_id timeout :
  pres P (wait_for_approval job_id timeout).
Proof.
  unfold wait_for_approval. repeat pres_step; auto with pres.
Qed.
#[local] Hint Resolve pres_wait_for_approval : pres.

Lemma pres_update_batches sf updates bs starts t :
  pres P (update_batches sf updates bs starts t).
Proof.
  revert t. induction starts as [|i starts IH]; intros t; simpl;
    repeat pres_step; auto.
Qed.
#[local] Hint Resolve pres_update_batches : pres.

Lemma pres_traced_salesforce_update sf updates bs :
  pres P (traced_salesforce_update sf updates bs).
Proof.
  unfold traced_salesforce_update. repeat pres_step;
    auto with pres.
Qed.
#[local] Hint Resolve pres_traced_salesforce_update : pres.

Lemma pres_approval_checkpoint job_id auto_approve announce pending metrics continue :
  pres P announce → pres P continue →
  pres P (approval_checkpoint job_id auto_approve announce pending metrics continue).
Proof.
  intros Ha Hc. unfold approval_checkpoint. repeat pres_step;
    auto with pres.
Qed.
#[local] Hint Resolve pres_approval_checkpoint : pres.

Lemma pres_finish T job_id pairs metrics : pres P (finish T job_id pairs metrics).
Proof.
  unfold finish. repeat pres_step; auto with pres.
Qed.
#[local] Hint Resolve pres_finish : pres.

Lemma pres_update_phase T job_id auto_approve sf pairs all_updates metrics :
  pres P (update_phase T job_id auto_approve sf pairs all_updates metrics).
Proof.
  unfold update_phase, update_salesforce_contacts. repeat pres_step;
    auto with pres.
  apply pres_approval_checkpoint; repeat pres_step; auto with pres.
Qed.
#[local] Hint Resolve pres_update_phase : pres.

Lemma pres_marking_phase T job_id auto_approve sf cd pairs all_updates metrics :
  pres P (marking_phase T job_id auto_approve sf cd pairs all_updates metrics).
Proof.
  unfold marking_phase. repeat pres_step;
    auto with pres.
Qed.
#[local] Hint Resolve pres_marking_phase : pres.

Lemma pres_workflow_phases T job_id job_config metrics :
  pres P (workflow_phases T job_id job_config metrics).
Proof.
  unfold workflow_phases. cbv zeta. repeat pres_step;
    auto with pres.
Qed.
#[local] Hint Resolve pres_workflow_phases : pres.

Lemma pres_run_agent_workflow T job_id job_config :
  pres P (run_agent_workflow T job_id job_config).
Proof.
  unfold run_agent_workflow. repeat pres_step;
    auto with pres.
Qed.
#[local] Hint Resolve pres_run_agent_workflow : pres.

Lemma pres_run_agent_job_body T job_id : pres P (run_agent_job_body T job_id).
Proof.
  unfold run_agent_job_body. repeat pres_step;
    auto with pres.
Qed.
#[local] Hint Resolve pres_run_agent_job_body : pres.

Lemma pres_job_failed job_id e : pres P (job_failed job_id e).
Proof. unfold job_failed. by apply pres_update_job. Qed.
#[local] Hint Resolve pres_job_failed : pres.

Lemma pres_run_agent_job T job_id : pres P (run_agent_job T job_id).
Proof.
  unfold run_agent_job. apply pres_try;
    auto with pres.
Qed.
#[local] Hint Resolve pres_run_agent_job : pres.
End Preservation.

(** * Two properties kept by every operation *)

Lemma Forall_od_set {V} (Q : string * V → Prop) k v d :
  Forall Q d → Q (k, v) → Forall Q (od_set k v d).
Proof.
  intros Hd Hkv. induction d as [|[k' v'] d IH]; simpl.
  - by constructor.
  - apply Forall_cons in Hd as [H1 H2].
    destruct (decide (k = k')); constructor; auto.
Qed.

Lemma registered_create job_id job_id' config w :
  registered job_id w → registered job_id (create_job job_id' config w).2.
Proof.
  intros [Hwf Hreg]. rewrite create_job_run. split.
  - unfold wf in *. simpl. rewrite length_app. simpl.
    apply Forall_od_set.
    + eapply Forall_impl; [exact Hwf|]. intros [k r] ?. simpl in *. lia.
    + simpl. lia.
  - simpl. rewrite od_get_set. by destruct (decide (job_id = job_id')).
Qed.

Lemma registered_commit job_id job_id' r job w :
  registered job_id w →
  registered job_id (log_history job_id' job (set_objs <[r := job]> w)).
Proof.
  intros [Hwf Hreg]. split; [|done].
  unfold wf in *. simpl. by rewrite length_insert.
Qed.

Lemma gate_ok_updated updates job t :
  gate_safe updates = true → gate_ok job = true →
  gate_ok (updated updates job t) = true.
Proof.
  unfold gate_safe, gate_ok, awaiting, get, updated. intros Hu Hj.
  rewrite !lookup_insert_ne by done. rewrite !lookup_union.
  destruct (updates !! "pending_approval") as [v|].
  - destruct (job !! "pending_approval"); simpl; rewrite Hu; apply orb_true_r.
  - destruct (updates !! "status") as [s|].
    + destruct (job !! "status"), (job !! "pending_approval"); simpl;
        by rewrite Hu.
    + destruct (job !! "status"), (job !! "pending_approval"); simpl in *; done.
Qed.

Lemma gate_ok_new_job job_id config created updated :
  gate_ok (new_job job_id config created updated) = true.
Proof. reflexivity. Qed.

Lemma gate_ok_deref w r :
  Forall (λ j, gate_ok j = true) (objs w) → gate_ok (deref w r) = true.
Proof.
  intros H. unfold deref. destruct (objs w !! r) as [j|] eqn:E; [|done].
  rewrite Forall_forall in H. apply H. by eapply list_elem_of_lookup_2.
Qed.

Lemma gate_inv_create job_id config w :
  gate_inv w → gate_inv (create_job job_id config w).2.
Proof.
  intros [Hh Ho]. rewrite create_job_run. split; simpl.
  - apply Forall_app. split; [done|]. constructor; [|done]. apply gate_ok_new_job.
  - apply Forall_app. split; [done|]. constructor; [|done]. apply gate_ok_new_job.
Qed.

Lemma gate_inv_commit job_id r updates w :
  gate_safe updates = true → gate_inv w →
  gate_inv (log_history job_id (updated updates (deref w r) (time w))
              (set_objs <[r := updated updates (deref w r) (time w)]> w)).
Proof.
  intros Hu [Hh Ho].
  pose proof (gate_ok_updated updates _ (time w) Hu (gate_ok_deref w r Ho)) as Hn.
  split; simpl.
  - apply Forall_app. split; [done|]. by constructor.
  - by apply Forall_insert.
Qed.

(** Whatever the collaborators and the requests do, a registered job stays
    registered while its runner works. *)
Lemma run_agent_job_body_registered T job_id job_id' w :
  registered job_id w → registered job_id (run_agent_job_body T job_id' w).2.
Proof.
  apply (pres_run_agent_job_body (registered job_id)); try done.
  - intros. by apply registered_create.
  - intros. by apply registered_commit.
Qed.

Lemma run_agent_job_gate_inv T job_id w :
  gate_inv w → gate_inv (run_agent_job T job_id w).2.
Proof.
  apply (pres_run_agent_job gate_inv); try done.
  - intros. by apply gate_inv_create.
  - intros. by apply gate_inv_commit.
Qed.

Lemma handle_gate_inv r w : gate_inv w → gate_inv (handle r w).2.
Proof.
  apply (pres_handle gate_inv); try done.
  - intros. by apply gate_inv_create.
  - intros. by apply gate_inv_commit.
Qed.

(** * The approval gate *)

Lemma handle_returns r w : ∃ w', handle r w = (Ok (), w').
Proof.
  unfold handle, try_except.
  match goal with |- context [match ?m w with _ => _ end] =>
    destruct (m w) as [[[]|e] w1] end; eauto.
Qed.

Lemma for_each_returns {A} (l : list A) body w :
  (∀ x w, ∃ w', body x w = (Ok (), w')) →
  ∃ w', for_each l body w = (Ok (), w').
Proof.
  intros Hb. revert w. induction l as [|x l IH]; intros w; simpl.
  - by exists w.
  - rewrite run_bind. destruct (Hb x w) as [w1 ->]. apply IH.
Qed.

(** Sleeping returns, and the clock has advanced by the time slept. *)
Lemma sleep_returns secs w :
  ∃ w', sleep secs w = (Ok (), w') ∧ time w' = time w + secs.
Proof.
  unfold sleep. rewrite run_bind. unfold gets at 1. rewrite run_bind.
  unfold gets at 1. rewrite run_bind. unfold modify at 1. rewrite run_bind.
  match goal with |- context [for_each ?l ?b ?w0] =>
    destruct (for_each_returns l b w0) as [w1 ->] end.
  { intros p w0. rewrite run_bind. unfold modify at 1. apply handle_returns. }
  eexists. split; [reflexivity|]. done.
Qed.

Lemma sleep_idle secs w :
  inbox w = [] → sleep secs w = (Ok (), set_time (time w + secs) w).
Proof.
  intros Hi. unfold sleep. rewrite run_bind. unfold gets at 1. rewrite run_bind.
  unfold gets at 1. rewrite Hi. rewrite run_bind. unfold modify at 1.
  rewrite filter_nil. simpl. destruct w; simpl in *. by subst.
Qed.

Lemma wait_loop_step fuel job_id timeout start_time w :
  wait_loop (S fuel) job_id timeout start_time w =
  if bool_decide (time w - start_time < timeout) then
    match stored_decision w job_id with
    | Some (VDict decision) =>
        (Ok (Some (get_or decision "approved" (VBool false))), w)
    | Some _ => (Raise (AttributeError "object has no attribute 'get'"), w)
    | None => (sleep 2;; wait_loop fuel job_id timeout start_time) w
    end
  else (Ok (Some (VBool false)), w).
Proof.
  cbn [wait_loop]. rewrite run_bind. unfold gets at 1.
  destruct (bool_decide (time w - start_time < timeout)); [|done].
  rewrite run_bind. unfold gets at 1.
  by destruct (stored_decision w job_id) as [[]|].
Qed.

(** With enough fuel the loop does not stop for lack of it. *)
Lemma wait_loop_fueled fuel job_id timeout start_time :
  ∀ w w', fueled fuel timeout start_time w →
    wait_loop fuel job_id timeout start_time w ≠ (Ok None, w').
Proof.
  induction fuel as [|fuel IH]; intros w w' [Hpos Hfuel]; [lia|].
  rewrite wait_loop_step.
  destruct (bool_decide (time w - start_time < timeout)) eqn:E; [|done].
  apply bool_decide_eq_true in E.
  destruct (stored_decision w job_id) as [[]|]; try done.
  rewrite run_bind. destruct (sleep_returns 2 w) as (w1 & -> & Ht).
  apply IH. split; lia.
Qed.

(** What the loop returns: the value of a decision stored at that moment,
    or [False] once the timeout has elapsed. *)
Lemma wait_loop_result fuel job_id timeout start_time :
  ∀ w v w',
    wait_loop fuel job_id timeout start_time w = (Ok (Some v), w') →
    (∃ d, stored_decision w' job_id = Some (VDict d)
          ∧ v = get_or d "approved" (VBool false))
    ∨ (v = VBool false ∧ timeout ≤ time w' - start_time).
Proof.
  induction fuel as [|fuel IH]; intros w v w' H; [done|].
  rewrite wait_loop_step in H.
  destruct (bool_decide (time w - start_time < timeout)) eqn:E.
  - destruct (stored_decision w job_id) as [[]|] eqn:Ed; try done.
    + injection H as <- <-. left. eauto.
    + rewrite run_bind in H. destruct (sleep_returns 2 w) as (w1 & Hs & Ht).
      rewrite Hs in H. by apply IH in H.
  - apply bool_decide_eq_false in E. injection H as <- <-. right. split; [done|lia].
Qed.

Lemma wait_loop_raises fuel job_id timeout start_time :
  ∀ w e w',
    wait_loop fuel job_id timeout start_time w = (Raise e, w') →
    ∃ x, stored_decision w' job_id = Some x ∧ (∀ d, x ≠ VDict d).
Proof.
  induction fuel as [|fuel IH]; intros w e w' H; [done|].
  rewrite wait_loop_step in H.
  destruct (bool_decide (time w - start_time < timeout)) eqn:E; [|done].
  destruct (stored_decision w job_id) as [x|] eqn:Ed.
  - destruct x; try done; injection H as <- <-; eexists; split; done.
  - rewrite run_bind in H. destruct (sleep_returns 2 w) as (w1 & Hs & Ht).
    rewrite Hs in H. by apply IH in H.
Qed.

(** With no request on its way and no decision stored, the loop times out
    and leaves the store as it was. *)
Lemma wait_loop_idle fuel job_id timeout start_time :
  ∀ w, inbox w = [] → stored_decision w job_id = None →
    fueled fuel timeout start_time w →
    ∃ t, wait_loop fuel job_id timeout start_time w
           = (Ok (Some (VBool false)), set_time t w)
         ∧ timeout ≤ t - start_time.
Proof.
  induction fuel as [|fuel IH]; intros w Hi Hd [Hpos Hfuel]; [lia|].
  rewrite wait_loop_step.
  destruct (bool_decide (time w - start_time < timeout)) eqn:E.
  - apply bool_decide_eq_true in E.
    rewrite Hd, run_bind, (sleep_idle _ _ Hi).
    destruct (IH (set_time (time w + 2) w)) as (t & -> & Ht); try done.
    { split; simpl; lia. }
    exists t. split; [|done]. by destruct w.
  - apply bool_decide_eq_false in E. exists (time w). split; [|lia].
    by destruct w.
Qed.

Lemma fueled_start timeout w : fueled (S (Z.to_nat timeout)) timeout (time w) w.
Proof. split; lia. Qed.



(** * The runner *)

Lemma body_raises_registered T job_id w e w1 :
  run_agent_job_body T job_id w = (Raise e, w1) →
  is_Some (od_get job_id (jobs w)).
Proof.
  unfold run_agent_job_body. rewrite run_bind. unfold get_job, gets at 1.
  by destruct (od_get job_id (jobs w)).
Qed.

(** C4: whatever exception leaves the body of the runner, the runner
    itself returns normally, and the job is left with status [failed] and
    the text of the exception in [error]. *)
Theorem runner_catches_every_exception T job_id w e w1 :
  wf w →
  run_agent_job_body T job_id w = (Raise e, w1) →
  ∃ w2 job,
    run_agent_job T job_id w = (Ok (), w2)
    ∧ job_of w2 job_id = Some job
    ∧ job !! "status" = Some (VStr "failed")
    ∧ job !! "error" = Some (VStr (str_exn e)).
Proof.
  intros Hwf Hbody.
  pose proof (body_raises_registered _ _ _ _ _ Hbody) as Hreg.
  pose proof (run_agent_job_body_registered T job_id job_id w (conj Hwf Hreg))
    as [Hwf1 [r Hr]].
  rewrite Hbody in Hwf1, Hr. simpl in Hwf1, Hr.
  unfold run_agent_job. rewrite (run_try_raise _ _ _ _ _ Hbody).
  unfold job_failed.
  match goal with |- context [update_job job_id ?u w1] =>
    destruct (update_job_registered job_id u w1 r Hr)
      as (w2 & -> & Ho & Hj & _) end.
  pose proof (wf_ref _ _ _ Hwf1 Hr) as Hlt.
  eexists w2, _. split; [done|]. split.
  - unfold job_of. rewrite Hj, Hr. cbn [mbind option_bind]. rewrite Ho.
    by apply list_lookup_insert_eq.
  - unfold updated. split; by simplify_map_eq.
Qed.

(** C2, as amended: in every snapshot committed while a runner works and
    requests are served, a job that is awaiting approval has its
    [pending_approval] set. The converse does not hold: nothing clears
    [pending_approval]. A decision posted for a job awaiting approval sets
    the status to running and leaves [pending_approval] as it was. *)
Theorem pending_approval_is_set_while_awaiting T job_id w :
  gate_inv w →
  gate_inv (run_agent_job T job_id w).2
  ∧ (∀ r, gate_inv (handle r w).2)
  ∧ (∀ request r j,
       od_get (ar_job_id request) (jobs w) = Some r →
       objs w !! r = Some j →
       awaiting j = true →
       ∃ response w1 j1,
         approve_decision request w = (Ok response, w1)
         ∧ job_of w1 (ar_job_id request) = Some j1
         ∧ j1 !! "status" = Some (VStr "running")
         ∧ j1 !! "pending_approval" = j !! "pending_approval").
Proof.
  intros Hinv. split_and!.
  - by apply run_agent_job_gate_inv.
  - intros r. by apply handle_gate_inv.
  - intros request r j Hr Hj Haw.
    assert (∃ status, j !! "status" = Some status
                      ∧ is_str status "awaiting_approval" = true)
      as (status & Hs & Hst).
    { unfold awaiting, get in Haw. destruct (j !! "status") as [s|]; [eauto|done]. }
    unfold approve_decision. rewrite run_bind.
    unfold get_job, gets at 1. rewrite Hr. rewrite run_bind. unfold gets at 1.
    rewrite (deref_lookup _ _ _ Hj). cbn [truthy]. rewrite (size_lookup _ _ _ Hs).
    cbn [negb]. rewrite run_bind. unfold lift, getitem. rewrite Hs, Hst.
    cbn [negb]. rewrite run_bind. unfold now, gets at 1. rewrite run_bind.
    match goal with |- context [update_job _ ?u w] =>
      destruct (update_job_registered (ar_job_id request) u w r Hr)
        as (w1 & -> & Ho & Hjobs & _) end.
    rewrite (deref_lookup _ _ _ Hj) in Ho.
    assert (r < length (objs w))%nat as Hlt by (eapply lookup_lt_Some, Hj).
    eexists _, w1, _. split; [reflexivity|]. split.
    + unfold job_of. rewrite Hjobs, Hr. cbn [mbind option_bind]. rewrite Ho.
      by apply list_lookup_insert_eq.
    + unfold updated. split; simplify_map_eq; [done|].
      rewrite lookup_union_r; done.
Qed.

(** The claim as stated fails: once the decision is posted the job is
    running with [pending_approval] still set, and it stays set in the
    completed job. *)
Lemma pending_approval_is_never_cleared :
  let w1 := (approve_decision (decision "job-1" true) world_awaiting).2 in
  let w2 := (run_agent_job sample_tools "job-1" (world_with_decision true)).2 in
  stored_status w1 "job-1" = Some (VStr "running")
  ∧ (job_of w1 "job-1" ≫= λ j, Some (nonnull (get j "pending_approval"))) = Some true
  ∧ existsb (λ e : string * Dict,
               is_str (get e.2 "status") "running"
               && nonnull (get e.2 "pending_approval")) (history w2) = true
  ∧ stored_status w2 "job-1" = Some (VStr "completed")
  ∧ (job_of w2 "job-1" ≫= λ j, Some (nonnull (get j "pending_approval"))) = Some true.
Proof. vm_compute. done. Qed.

(** C1 at a rejected checkpoint and at a checkpoint that times out: the
    runner returns, no batch reaches Salesforce, the result says
    [cancelled], but the stored status is [completed] and no committed
    snapshot ever has status [cancelled]. *)
Lemma rejected_job_is_stored_completed :
  let rejected := run_agent_job sample_tools "job-1" (world_with_decision false) in
  let timed_out := run_agent_job sample_tools "job-1" world_created in
  rejected.1 = Ok ()
  ∧ sf_calls rejected.2 = []
  ∧ stored_result_status rejected.2 "job-1" = Some (VStr "cancelled")
  ∧ stored_status rejected.2 "job-1" = Some (VStr "completed")
  ∧ forallb (λ e : string * Dict, negb (is_str (get e.2 "status") "cancelled"))
      (history rejected.2) = true
  ∧ timed_out.1 = Ok ()
  ∧ time timed_out.2 = 3600
  ∧ sf_calls timed_out.2 = []
  ∧ stored_result_status timed_out.2 "job-1" = Some (VStr "cancelled")
  ∧ stored_status timed_out.2 "job-1" = Some (VStr "completed").
Proof. vm_compute. done. Qed.


(** * The theorems at the sample data *)



Lemma runner_catches_every_exception_witness :
  wf world_created
  ∧ ∃ w2 job,
      run_agent_job offline_tools "job-1" world_created = (Ok (), w2)
      ∧ job_of w2 "job-1" = Some job
      ∧ job !! "status" = Some (VStr "failed")
      ∧ job !! "error" = Some (VStr "Connection failed: timed out").
Proof.
  assert (wf world_created) as Hwf.
  { unfold wf. vm_compute. repeat constructor. }
  split; [done|].
  apply (runner_catches_every_exception offline_tools "job-1" world_created
           (Exception "Connection failed: timed out")
           (run_agent_job_body offline_tools "job-1" world_created).2 Hwf).
  vm_compute. reflexivity.
Defined.



Lemma list_jobs_shares_records_witness :
  wf world_created
  ∧ list_jobs world_created = (Ok [0%nat], world_created)
  ∧ ∃ w', update_job "job-1" checkpoint_updates world_created = (Ok (), w')
          ∧ deref w' 0 = updated checkpoint_updates (deref world_created 0) 0.
Proof.
  assert (wf world_created) as Hwf.
  { unfold wf. vm_compute. repeat constructor. }
  destruct (list_jobs_shares_records world_created Hwf) as (H1 & H2 & _).
  split_and!; [done|exact H1|].
  destruct (H2 "job-1" checkpoint_updates 0%nat eq_refl) as (w' & Hrun & Hview).
  exists w'. split; [done|]. apply (Hview 0%nat). by left.
Defined.

Lemma pending_approval_is_set_while_awaiting_witness :
  gate_inv world_created
  ∧ gate_inv (run_agent_job sample_tools "job-1" world_created).2.
Proof.
  assert (gate_inv world_created) as Hinv.
  { unfold world_created. rewrite create_job_run.
    split; simpl; (constructor; [reflexivity|constructor]). }
  split; [done|].
  exact (proj1 (pending_approval_is_set_while_awaiting sample_tools "job-1"
                  world_created Hinv)).
Defined.
